(** * The best overlap graph of canu's bogart (AS_BAT_BestOverlapGraph.H)

  A shallow embedding of the value types [ReadEnd] and [BestEdgeOverlap],
  of the per-read storage and of the query interface of
  [BestOverlapGraph], followed by the properties of them that the
  specification states.

  Unsigned C++ integers are [N], signed ones are [Z]; every store into a
  bit-field writes out the reduction to the field's width. *)

From Stdlib Require Import ZArith NArith Lia List Bool String.
From stdpp Require Import base option list gmap.

Local Open Scope N_scope.

(** ** Fixed-width integers *)

(** An unsigned field of [w] bits keeps the low [w] bits of what is stored. *)
Definition ufield (w : N) (x : N) : N := x mod 2 ^ w.

(** A signed (two's complement) field of [w + 1] bits. *)
Definition sfield (w : N) (x : Z) : Z :=
  ((x + 2 ^ Z.of_N w) mod 2 ^ (Z.of_N w + 1) - 2 ^ Z.of_N w)%Z.

(** ** class ReadEnd *)

Module ReadEnd.

(** [uint32 _id:31; uint32 _e3p:1;] *)
Record t : Type := mk { _id : N; _e3p : bool }.

(** [ReadEnd()] *)
Definition default : t := {| _id := 0; _e3p := false |}.

(** [ReadEnd(uint32 id, bool e3p)]: the identifier goes into 31 bits. *)
Definition new (id : N) (e3p : bool) : t :=
  {| _id := ufield 31 id; _e3p := e3p |}.

Definition readId (this : t) : N := _id this.
Definition read3p (this : t) : bool := Bool.eqb (_e3p this) true.
Definition read5p (this : t) : bool := Bool.eqb (_e3p this) false.

(** [operator==], [operator!=], [operator<] *)
Definition eq (this that : t) : bool :=
  (readId this =? readId that) && Bool.eqb (read3p this) (read3p that).

Definition ne (this that : t) : bool :=
  negb (readId this =? readId that) || negb (Bool.eqb (read3p this) (read3p that)).

Definition lt (this that : t) : bool :=
  if negb (readId this =? readId that)
  then readId this <? readId that
  else negb (read3p this) && read3p that.

End ReadEnd.

(** ** The overlap record consumed by the graph *)

Module BAToverlap.

(** Modelled from the spec: the overlap record [BAToverlap] is declared in
    AS_BAT_OverlapCache.H, which is not part of the file at hand.  The
    spec gives its shape: the read scored from, the target read, the two
    signed hangs, the flipped flag and the error code. *)
Record t : Type := mk {
  a_iid   : N;
  b_iid   : N;
  a_hang  : Z;
  b_hang  : Z;
  flipped : bool;
  evalue  : N
  }.

End BAToverlap.

(** ** class BestEdgeOverlap *)

Module BestEdgeOverlap.

(** [uint32 _id; uint64 _e3p:1; int64 _ahang:AS_MAX_READLEN_BITS+1;
     int64 _bhang:AS_MAX_READLEN_BITS+1; uint64 _evalue:AS_MAX_EVALUE_BITS;] *)
Record t : Type := mk {
  _id     : N;
  _e3p    : bool;
  _ahang  : Z;
  _bhang  : Z;
  _evalue : N
  }.

Definition clear (this : t) : t :=
  {| _id := 0; _e3p := false; _ahang := 0; _bhang := 0; _evalue := 0 |}.

(** Storage before any constructor ran on it, zero-initialised. *)
Definition zeroed : t := mk 0 false 0 0 0.

(** [BestEdgeOverlap() { clear(); }] *)
Definition new (storage : t) : t := clear storage.

Definition readId (this : t) : N := _id this.
Definition read3p (this : t) : bool := Bool.eqb (_e3p this) true.
Definition read5p (this : t) : bool := Bool.eqb (_e3p this) false.

(** The hang accessors return [int32], [evalue()] returns [uint32]. *)
Definition ahang (this : t) : Z := sfield 31 (_ahang this).
Definition bhang (this : t) : Z := sfield 31 (_bhang this).
Definition evalue (this : t) : N := ufield 32 (_evalue this).

(** The test of [set] on the hangs: one read's hangs bracket the other's. *)
Definition isContainment (olap : BAToverlap.t) : bool :=
  ((BAToverlap.a_hang olap <=? 0)%Z && (BAToverlap.b_hang olap >=? 0)%Z)
  || ((BAToverlap.a_hang olap >=? 0)%Z && (BAToverlap.b_hang olap <=? 0)%Z).

Section Widths.

(** The two configuration macros of AS_global.H and the overlap's own
    [BEndIs3prime()] are declared outside the file at hand. *)
Variables AS_MAX_READLEN_BITS AS_MAX_EVALUE_BITS : N.
Variable BEndIs3prime : BAToverlap.t -> bool.

(** [void set(BAToverlap const &olap)] *)
Definition set (olap : BAToverlap.t) (this : t) : t :=
  {| _id     := ufield 32 (BAToverlap.b_iid olap);
     _e3p    := if isContainment olap
                then BAToverlap.flipped olap
                else BEndIs3prime olap;
     _ahang  := sfield AS_MAX_READLEN_BITS (BAToverlap.a_hang olap);
     _bhang  := sfield AS_MAX_READLEN_BITS (BAToverlap.b_hang olap);
     _evalue := ufield AS_MAX_EVALUE_BITS (BAToverlap.evalue olap) |}.

(** [void set(uint32 id, bool e3p, int32 ahang, int32 bhang, uint32 evalue)] *)
Definition set5 (id : N) (e3p : bool) (ahang bhang : Z) (evalue : N) (this : t) : t :=
  {| _id     := ufield 32 id;
     _e3p    := e3p;
     _ahang  := sfield AS_MAX_READLEN_BITS ahang;
     _bhang  := sfield AS_MAX_READLEN_BITS bhang;
     _evalue := ufield AS_MAX_EVALUE_BITS evalue |}.

(** [BestEdgeOverlap(BAToverlap const &ovl) { set(ovl); }] *)
Definition of_overlap (olap : BAToverlap.t) (storage : t) : t := set olap storage.

(** The overlap's identifier, hangs and error code are values of the
    fields they are stored into. *)
Definition storable (olap : BAToverlap.t) : Prop :=
  BAToverlap.b_iid olap < 2 ^ 32
  /\ (- 2 ^ Z.of_N AS_MAX_READLEN_BITS <= BAToverlap.a_hang olap < 2 ^ Z.of_N AS_MAX_READLEN_BITS)%Z
  /\ (- 2 ^ Z.of_N AS_MAX_READLEN_BITS <= BAToverlap.b_hang olap < 2 ^ Z.of_N AS_MAX_READLEN_BITS)%Z
  /\ BAToverlap.evalue olap < 2 ^ AS_MAX_EVALUE_BITS.

(** The declared widths of the four bit-fields that share the storage word. *)
Definition bitfields : list (string * N) :=
  [ ("_e3p"%string, 1);
    ("_ahang"%string, AS_MAX_READLEN_BITS + 1);
    ("_bhang"%string, AS_MAX_READLEN_BITS + 1);
    ("_evalue"%string, AS_MAX_EVALUE_BITS) ].

Definition packed_width : N := foldr (fun f acc => snd f + acc) 0 bitfields.

(** [#if (1 + AS_MAX_READLEN_BITS + 1 + AS_MAX_READLEN_BITS + 1 + AS_MAX_EVALUE_BITS > 64)
     #error ...]: what the preprocessor makes of the class.  An [#error]
    ends the translation; otherwise the class and its operations exist. *)
Inductive translation (A : Type) : Type :=
  | hash_error (message : string)
  | translated (unit : A).

Definition translate {A : Type} (unit : A) : translation A :=
  if 64 <? 1 + AS_MAX_READLEN_BITS + 1 + AS_MAX_READLEN_BITS + 1 + AS_MAX_EVALUE_BITS
  then hash_error A "not enough bits to store overlaps.  decrease AS_MAX_EVALUE_BITS or AS_MAX_READLEN_BITS."
  else translated A unit.

End Widths.

End BestEdgeOverlap.

(** [double erate(void) const { return(AS_OVS_decodeEvalue(_evalue)); }]:
  the decoder of AS_global.H and the type it returns are taken as given. *)
Definition BestEdgeOverlap_erate {double : Type} (AS_OVS_decodeEvalue : N -> double)
  (this : BestEdgeOverlap.t) : double :=
  AS_OVS_decodeEvalue (BestEdgeOverlap._evalue this).

(** ** class BestOverlaps, class BestScores *)

Module BestOverlaps.

Record t : Type := mk {
  _best5 : BestEdgeOverlap.t;
  _best3 : BestEdgeOverlap.t;
  _isC   : N
  }.

(** A value-initialised element, as [std::map::operator[]] creates it and
    as the array is filled at construction: zeroed storage on which the
    member constructors ran. *)
Definition value_init : t :=
  {| _best5 := BestEdgeOverlap.new BestEdgeOverlap.zeroed;
     _best3 := BestEdgeOverlap.new BestEdgeOverlap.zeroed;
     _isC   := 0 |}.

Definition end_of (threePrime : bool) (this : t) : BestEdgeOverlap.t :=
  if threePrime then _best3 this else _best5 this.

Definition upd_end (threePrime : bool) (f : BestEdgeOverlap.t -> BestEdgeOverlap.t)
    (this : t) : t :=
  if threePrime
  then {| _best5 := _best5 this; _best3 := f (_best3 this); _isC := _isC this |}
  else {| _best5 := f (_best5 this); _best3 := _best3 this; _isC := _isC this |}.

Definition set_isC (v : N) (this : t) : t :=
  {| _best5 := _best5 this; _best3 := _best3 this; _isC := v |}.

End BestOverlaps.

Module BestScores.

Record t : Type := mk {
  _best5score : N;
  _best3score : N;
  _isC        : N
  }.

(** [BestScores()] *)
Definition new : t := {| _best5score := 0; _best3score := 0; _isC := 0 |}.

Definition score_of (threePrime : bool) (this : t) : N :=
  if threePrime then _best3score this else _best5score this.

Definition set_score (threePrime : bool) (v : N) (this : t) : t :=
  if threePrime
  then {| _best5score := _best5score this; _best3score := ufield 64 v; _isC := _isC this |}
  else {| _best5score := ufield 64 v; _best3score := _best3score this; _isC := _isC this |}.

End BestScores.

(** [std::map::operator[]]: the element under the key, inserted
  value-initialised when the key is new. *)
Definition map_index {V : Type} (fresh : V) (m : gmap N V) (k : N) : V * gmap N V :=
  match m !! k with
  | Some v => (v, m)
  | None => (fresh, <[k := fresh]> m)
  end.

(** ** class BestOverlapGraph *)

Module BestOverlapGraph.

Section Graph.

(** The floating-point type of the statistics and cutoffs. *)
Variable double : Type.

Record t : Type := mk {
  _bestA : option (list BestOverlaps.t);   (* NULL, or the array *)
  _scorA : option (list BestScores.t);
  _mean : double;
  _stddev : double;
  _median : double;
  _mad : double;
  _nSuspicious : N;
  _n1EdgeFiltered : N;
  _n2EdgeFiltered : N;
  _n1EdgeIncompatible : N;
  _n2EdgeIncompatible : N;
  _suspicious : gset N;
  _singleton : gset N;
  _spur : gset N;
  _bestM : gmap N BestOverlaps.t;
  _scorM : gmap N BestScores.t;
  _restrict : option (gset N);
  _restrictEnabled : bool;
  _erateGraph : double;
  _deviationGraph : double;
  _errorLimit : double
  }.

Definition with_bestA (v : option (list BestOverlaps.t)) (g : t) : t :=
  mk v (_scorA g) (_mean g) (_stddev g) (_median g) (_mad g) (_nSuspicious g)
     (_n1EdgeFiltered g) (_n2EdgeFiltered g) (_n1EdgeIncompatible g)
     (_n2EdgeIncompatible g) (_suspicious g) (_singleton g) (_spur g) (_bestM g)
     (_scorM g) (_restrict g) (_restrictEnabled g) (_erateGraph g)
     (_deviationGraph g) (_errorLimit g).

Definition with_scorA (v : option (list BestScores.t)) (g : t) : t :=
  mk (_bestA g) v (_mean g) (_stddev g) (_median g) (_mad g) (_nSuspicious g)
     (_n1EdgeFiltered g) (_n2EdgeFiltered g) (_n1EdgeIncompatible g)
     (_n2EdgeIncompatible g) (_suspicious g) (_singleton g) (_spur g) (_bestM g)
     (_scorM g) (_restrict g) (_restrictEnabled g) (_erateGraph g)
     (_deviationGraph g) (_errorLimit g).

Definition with_bestM (v : gmap N BestOverlaps.t) (g : t) : t :=
  mk (_bestA g) (_scorA g) (_mean g) (_stddev g) (_median g) (_mad g) (_nSuspicious g)
     (_n1EdgeFiltered g) (_n2EdgeFiltered g) (_n1EdgeIncompatible g)
     (_n2EdgeIncompatible g) (_suspicious g) (_singleton g) (_spur g) v
     (_scorM g) (_restrict g) (_restrictEnabled g) (_erateGraph g)
     (_deviationGraph g) (_errorLimit g).

Definition with_scorM (v : gmap N BestScores.t) (g : t) : t :=
  mk (_bestA g) (_scorA g) (_mean g) (_stddev g) (_median g) (_mad g) (_nSuspicious g)
     (_n1EdgeFiltered g) (_n2EdgeFiltered g) (_n1EdgeIncompatible g)
     (_n2EdgeIncompatible g) (_suspicious g) (_singleton g) (_spur g) (_bestM g)
     v (_restrict g) (_restrictEnabled g) (_erateGraph g)
     (_deviationGraph g) (_errorLimit g).

(** [_bestA[readid]] and [_bestM[readid]]: the element and the storage
    after the access.  An index past the array has no element. *)
Definition best_at (this : t) (readid : N) : option (BestOverlaps.t * t) :=
  match _bestA this with
  | Some bestA =>
      match bestA !! N.to_nat readid with
      | Some bo => Some (bo, this)
      | None => None
      end
  | None =>
      let '(bo, m) := map_index BestOverlaps.value_init (_bestM this) readid in
      Some (bo, with_bestM m this)
  end.

(** [BestEdgeOverlap *getBestEdgeOverlap(uint32 readid, bool threePrime)]:
    the record the returned pointer refers to, and the graph after the call. *)
Definition getBestEdgeOverlap (this : t) (readid : N) (threePrime : bool)
    : option (BestEdgeOverlap.t * t) :=
  match best_at this readid with
  | Some (bo, this') => Some (BestOverlaps.end_of threePrime bo, this')
  | None => None
  end.

(** [ReadEnd followOverlap(ReadEnd end)] *)
Definition followOverlap (this : t) (e : ReadEnd.t) : option (ReadEnd.t * t) :=
  if ReadEnd.readId e =? 0
  then Some (ReadEnd.default, this)
  else
    match getBestEdgeOverlap this (ReadEnd.readId e) (ReadEnd.read3p e) with
    | Some (edge, this') =>
        Some (ReadEnd.new (BestEdgeOverlap.readId edge)
                          (negb (BestEdgeOverlap.read3p edge)), this')
    | None => None
    end.

(** A store through [_bestA[readid]] or [_bestM[readid]]. *)
Definition upd_best (this : t) (readid : N) (f : BestOverlaps.t -> BestOverlaps.t)
    : option t :=
  match _bestA this with
  | Some bestA =>
      match bestA !! N.to_nat readid with
      | Some bo => Some (with_bestA (Some (<[N.to_nat readid := f bo]> bestA)) this)
      | None => None
      end
  | None =>
      let '(bo, m) := map_index BestOverlaps.value_init (_bestM this) readid in
      Some (with_bestM (<[readid := f bo]> m) this)
  end.

(** [void setContained(const uint32 readid)] *)
Definition setContained (this : t) (readid : N) : option t :=
  upd_best this readid (BestOverlaps.set_isC 1).

(** [bool isContained(const uint32 readid)] *)
Definition isContained (this : t) (readid : N) : option (bool * t) :=
  match best_at this readid with
  | Some (bo, this') => Some (negb (BestOverlaps._isC bo =? 0), this')
  | None => None
  end.

(** [bool isSuspicious(const uint32 readid)] *)
Definition isSuspicious (this : t) (readid : N) : bool * t :=
  (bool_decide (readid ∈ _suspicious this), this).

(** [uint64 &best5score(uint32 id)], [uint64 &best3score(uint32 id)]: a
    load and a store through the returned reference. *)
Definition bestscore (threePrime : bool) (this : t) (id : N) : option (N * t) :=
  if negb (_restrictEnabled this)
  then
    match _scorA this with
    | Some scorA =>
        match scorA !! N.to_nat id with
        | Some sc => Some (BestScores.score_of threePrime sc, this)
        | None => None
        end
    | None => None
    end
  else
    let '(sc, m) := map_index BestScores.new (_scorM this) id in
    Some (BestScores.score_of threePrime sc, with_scorM m this).

Definition set_bestscore (threePrime : bool) (this : t) (id : N) (v : N) : option t :=
  if negb (_restrictEnabled this)
  then
    match _scorA this with
    | Some scorA =>
        match scorA !! N.to_nat id with
        | Some sc =>
            Some (with_scorA
                    (Some (<[N.to_nat id := BestScores.set_score threePrime v sc]> scorA))
                    this)
        | None => None
        end
    | None => None
    end
  else
    let '(sc, m) := map_index BestScores.new (_scorM this) id in
    Some (with_scorM (<[id := BestScores.set_score threePrime v sc]> m) this).

(** The read has storage of its own: any read of the keyed mapping, a
    read within the array otherwise. *)
Definition in_storage (this : t) (readid : N) : Prop :=
  match _bestA this with
  | Some bestA => (N.to_nat readid < length bestA)%nat
  | None => True
  end.

(** What the graph holds for a read, as every accessor of the class reads it. *)
Definition entry (this : t) (readid : N) : option BestOverlaps.t :=
  match _bestA this with
  | Some bestA => bestA !! N.to_nat readid
  | None => Some (default BestOverlaps.value_init (_bestM this !! readid))
  end.


Definition with_statistics (st : double * double * double * double) (limit : double)
    (g : t) : t :=
  mk (_bestA g) (_scorA g) (st.1.1.1) (st.1.1.2) (st.1.2) (st.2) (_nSuspicious g)
     (_n1EdgeFiltered g) (_n2EdgeFiltered g) (_n1EdgeIncompatible g)
     (_n2EdgeIncompatible g) (_suspicious g) (_singleton g) (_spur g) (_bestM g)
     (_scorM g) (_restrict g) (_restrictEnabled g) (_erateGraph g)
     (_deviationGraph g) limit.

Definition with_filtered (n1 n2 : N) (g : t) : t :=
  mk (_bestA g) (_scorA g) (_mean g) (_stddev g) (_median g) (_mad g) (_nSuspicious g)
     (ufield 32 n1) (ufield 32 n2) (_n1EdgeIncompatible g)
     (_n2EdgeIncompatible g) (_suspicious g) (_singleton g) (_spur g) (_bestM g)
     (_scorM g) (_restrict g) (_restrictEnabled g) (_erateGraph g)
     (_deviationGraph g) (_errorLimit g).

Definition with_suspicious (v : gset N) (g : t) : t :=
  mk (_bestA g) (_scorA g) (_mean g) (_stddev g) (_median g) (_mad g) (_nSuspicious g)
     (_n1EdgeFiltered g) (_n2EdgeFiltered g) (_n1EdgeIncompatible g)
     (_n2EdgeIncompatible g) v (_singleton g) (_spur g) (_bestM g)
     (_scorM g) (_restrict g) (_restrictEnabled g) (_erateGraph g)
     (_deviationGraph g) (_errorLimit g).

Definition with_spur (v : gset N) (g : t) : t :=
  mk (_bestA g) (_scorA g) (_mean g) (_stddev g) (_median g) (_mad g) (_nSuspicious g)
     (_n1EdgeFiltered g) (_n2EdgeFiltered g) (_n1EdgeIncompatible g)
     (_n2EdgeIncompatible g) (_suspicious g) (_singleton g) v (_bestM g)
     (_scorM g) (_restrict g) (_restrictEnabled g) (_erateGraph g)
     (_deviationGraph g) (_errorLimit g).

(** *** Construction

  The constructor and the passes it runs are declared in the class
  and defined in AS_BAT_BestOverlapGraph.C, outside the file at hand:
  they are modelled from the spec, over what the spec leaves open. *)

Variable AS_OVS_decodeEvalue : N -> double.
(** [exceeds x y] is the comparison [x > y] of two doubles. *)
Variable exceeds : double -> double -> bool.
Variables AS_MAX_READLEN_BITS AS_MAX_EVALUE_BITS : N.
Variable BEndIs3prime : BAToverlap.t -> bool.
(** The number of reads of the assembly. *)
Variable numReads : N.
(** The scoring formula, which the spec leaves open. *)
Variable scoreOverlap : BAToverlap.t -> N.
(** Mean, standard deviation, median and median absolute deviation of a
    list of error rates, and the ceiling derived from them. *)
Variable edgeStatistics : list double -> double * double * double * double.
Variable errorCeiling : double -> double * double * double * double -> double.
(** The geometric test of the contained-dovetail pass, the test of the
    lopsided pass on a read's two scores, and whether the spur pass
    clears. *)
Variable inconsistentWithContainment : BestEdgeOverlap.t -> bool.
Variable lopsided : N -> N -> bool.
Variable clearSpurEdges : bool.

(** Modelled from the spec: a slot in the zero, no-edge state (3, and the
    state machine of 4.7: NoEdge and Cleared both report the zero edge). *)
Definition isNoEdge (e : BestEdgeOverlap.t) : bool :=
  (BestEdgeOverlap._id e =? 0) && negb (BestEdgeOverlap._e3p e)
  && (BestEdgeOverlap._ahang e =? 0)%Z && (BestEdgeOverlap._bhang e =? 0)%Z
  && (BestEdgeOverlap._evalue e =? 0).

(** Modelled from the spec: a slot that holds a retained edge, and the
    clearing of a slot that a pass decides on (4.3: reset to the zero
    state). *)
Definition retained (e : BestEdgeOverlap.t) : bool := negb (isNoEdge e).

Definition clearIf (b : bool) (e : BestEdgeOverlap.t) : BestEdgeOverlap.t :=
  if b then BestEdgeOverlap.clear e else e.

(** Modelled from the spec: the per-read storage of the full read set
    (3): one zero-initialised entry and one score per read, identifiers
    running up to the number of reads; no statistics yet, which is the
    state the spec gives them over no edges (4.2). *)
Definition allocate (erateGraph deviationGraph : double) : t :=
  let st := edgeStatistics [] in
  {| _bestA := Some (replicate (N.to_nat numReads + 1) BestOverlaps.value_init);
     _scorA := Some (replicate (N.to_nat numReads + 1) BestScores.new);
     _mean := st.1.1.1; _stddev := st.1.1.2; _median := st.1.2; _mad := st.2;
     _nSuspicious := 0; _n1EdgeFiltered := 0; _n2EdgeFiltered := 0;
     _n1EdgeIncompatible := 0; _n2EdgeIncompatible := 0;
     _suspicious := ∅; _singleton := ∅; _spur := ∅;
     _bestM := ∅; _scorM := ∅;
     _restrict := None; _restrictEnabled := false;
     _erateGraph := erateGraph; _deviationGraph := deviationGraph;
     _errorLimit := errorCeiling deviationGraph st |}.

(** Modelled from the spec: which end of read A a dovetail touches (4.1:
    a negative a_hang the 5' end, a positive one the 3' end). *)
Definition AEndIs3prime (olap : BAToverlap.t) : bool := (0 <? BAToverlap.a_hang olap)%Z.

(** Modelled from the spec: the contained read of a containment (3:
    a_hang <= 0 and b_hang >= 0 has B bracket A, the other branch has A
    bracket B). *)
Definition containedRead (olap : BAToverlap.t) : N :=
  if (BAToverlap.a_hang olap <=? 0)%Z && (BAToverlap.b_hang olap >=? 0)%Z
  then BAToverlap.a_iid olap
  else BAToverlap.b_iid olap.

(** Modelled from the spec: a containment sets the flag of the contained
    read through [setContained], and takes no edge slot (4.1).  The
    containing read that the spec's containment scoring prefers has no
    member of the class to be kept in; it is not modelled. *)
Definition scoreContainment (g : t) (olap : BAToverlap.t) : option t :=
  setContained g (containedRead olap).

(** Modelled from the spec: the candidate wins when its score strictly
    exceeds the retained one; a tie goes to the lower error code, then
    to the lower target read (4.1). *)
Definition beats (score : N) (cand : BestEdgeOverlap.t)
    (bestScore : N) (best : BestEdgeOverlap.t) : bool :=
  (bestScore <? score)
  || ((score =? bestScore)
      && ((BestEdgeOverlap.evalue cand <? BestEdgeOverlap.evalue best)
          || ((BestEdgeOverlap.evalue cand =? BestEdgeOverlap.evalue best)
              && (BestEdgeOverlap.readId cand <? BestEdgeOverlap.readId best)))).

(** Modelled from the spec: a dovetail updates the best edge and the
    score of exactly one end of read A, and nothing else (4.1). *)
Definition scoreEdge (g : t) (olap : BAToverlap.t) : option t :=
  let a3p := AEndIs3prime olap in
  let newScr := ufield 64 (scoreOverlap olap) in
  let cand :=
    BestEdgeOverlap.of_overlap AS_MAX_READLEN_BITS AS_MAX_EVALUE_BITS BEndIs3prime
      olap BestEdgeOverlap.zeroed in
  '(best, g1) ← getBestEdgeOverlap g (BAToverlap.a_iid olap) a3p;
  '(score, g2) ← bestscore a3p g1 (BAToverlap.a_iid olap);
  if beats newScr cand score best
  then
    g3 ← upd_best g2 (BAToverlap.a_iid olap)
            (BestOverlaps.upd_end a3p
               (BestEdgeOverlap.set AS_MAX_READLEN_BITS AS_MAX_EVALUE_BITS
                  BEndIs3prime olap));
    set_bestscore a3p g3 (BAToverlap.a_iid olap) newScr
  else Some g2.

(** Modelled from the spec: one overlap is a containment or a dovetail by
    the signs of its hangs (3, 4.1); every pair of hangs is one or the
    other, so that no overlap is rejected for its geometry. *)
Definition scoreOne (g : t) (olap : BAToverlap.t) : option t :=
  if BestEdgeOverlap.isContainment olap
  then scoreContainment g olap
  else scoreEdge g olap.

(** Modelled from the spec: the scoring pass takes the overlaps one by
    one, in the order the source delivers them (4.1, 6). *)
Fixpoint findEdges (g : t) (overlaps : list BAToverlap.t) : option t :=
  match overlaps with
  | [] => Some g
  | olap :: rest => g' ← scoreOne g olap; findEdges g' rest
  end.

(** Modelled from the spec: the error rates of the retained best edges,
    5' and 3' across all reads (4.2). *)
Definition rateOf (e : BestEdgeOverlap.t) : list double :=
  if retained e then [BestEdgeOverlap_erate AS_OVS_decodeEvalue e] else [].

(** Modelled from the spec: the rates the statistics are taken over (4.2). *)
Definition retainedRates (bestA : list BestOverlaps.t) : list double :=
  flat_map (fun bo => rateOf (BestOverlaps._best5 bo) ++ rateOf (BestOverlaps._best3 bo))
           bestA.

(** Modelled from the spec: the statistics pass reads the storage and
    writes the statistics and the ceiling only (4.2). *)
Definition computeStatistics (g : t) : t :=
  match _bestA g with
  | Some bestA =>
      let st := edgeStatistics (retainedRates bestA) in
      with_statistics st (errorCeiling (_deviationGraph g) st) g
  | None => g
  end.

(** The spec names two tests for the high-error pass, the rate against the
    derived ceiling and, independently, against the erateGraph cutoff (4.3).
    Its wording can be read as either test marking the edge, and as both
    tests having to hold; which of the two the pass does is left open. *)
Variable eitherTestClears : bool.

(** Modelled from the spec: an edge is of high error by the comparison of
    its rate with the derived ceiling and with the erateGraph cutoff (4.3),
    the two verdicts combined as [eitherTestClears] says. *)
Definition isHighError (limit cutoff : double) (e : BestEdgeOverlap.t) : bool :=
  let overCeiling := exceeds (BestEdgeOverlap_erate AS_OVS_decodeEvalue e) limit in
  let overCutoff := exceeds (BestEdgeOverlap_erate AS_OVS_decodeEvalue e) cutoff in
  if eitherTestClears then overCeiling || overCutoff else overCeiling && overCutoff.

(** Modelled from the spec: the high-error pass on the two ends of one
    read (4.3). *)
Definition highErrorEntry (limit cutoff : double) (bo : BestOverlaps.t) : BestOverlaps.t :=
  {| BestOverlaps._best5 :=
       clearIf (isHighError limit cutoff (BestOverlaps._best5 bo)) (BestOverlaps._best5 bo);
     BestOverlaps._best3 :=
       clearIf (isHighError limit cutoff (BestOverlaps._best3 bo)) (BestOverlaps._best3 bo);
     BestOverlaps._isC := BestOverlaps._isC bo |}.

(** Modelled from the spec: how many ends of the read the pass filters, 0,
    1 or 2, and the number of reads with [k] filtered ends (4.3). *)
Definition filteredEnds (limit cutoff : double) (bo : BestOverlaps.t) : nat :=
  (if retained (BestOverlaps._best5 bo) && isHighError limit cutoff (BestOverlaps._best5 bo)
   then 1 else 0)
  + (if retained (BestOverlaps._best3 bo) && isHighError limit cutoff (BestOverlaps._best3 bo)
     then 1 else 0).

Definition countFiltered (k : nat) (limit cutoff : double)
    (bestA : list BestOverlaps.t) : N :=
  N.of_nat (length (filter (fun bo => filteredEnds limit cutoff bo = k) bestA)).

(** Modelled from the spec: the high-error pass clears the edges of high
    error and counts the reads with one and with both ends filtered (4.3). *)
Definition removeHighErrorBestEdges (g : t) : t :=
  match _bestA g with
  | Some bestA =>
      with_filtered
        (_n1EdgeFiltered g + countFiltered 1 (_errorLimit g) (_erateGraph g) bestA)
        (_n2EdgeFiltered g + countFiltered 2 (_errorLimit g) (_erateGraph g) bestA)
        (with_bestA (Some (highErrorEntry (_errorLimit g) (_erateGraph g) <$> bestA)) g)
  | None => g
  end.

(** Modelled from the spec: on a read marked contained, the pass clears
    the best edges inconsistent with the containment; the flag stays (4.4). *)
Definition containedEntry (bo : BestOverlaps.t) : BestOverlaps.t :=
  if negb (BestOverlaps._isC bo =? 0)
  then
    {| BestOverlaps._best5 :=
         clearIf (inconsistentWithContainment (BestOverlaps._best5 bo)) (BestOverlaps._best5 bo);
       BestOverlaps._best3 :=
         clearIf (inconsistentWithContainment (BestOverlaps._best3 bo)) (BestOverlaps._best3 bo);
       BestOverlaps._isC := BestOverlaps._isC bo |}
  else bo.

(** Modelled from the spec: the contained-dovetail pass over all reads (4.4). *)
Definition removeContainedDovetails (g : t) : t :=
  match _bestA g with
  | Some bestA => with_bestA (Some (containedEntry <$> bestA)) g
  | None => g
  end.

(** Modelled from the spec: when the two scores of a read are lopsided,
    the end of the weaker score is cleared (4.5). *)
Definition lopsidedEntry (sc : BestScores.t) (bo : BestOverlaps.t) : BestOverlaps.t :=
  if lopsided (BestScores._best5score sc) (BestScores._best3score sc)
  then
    if BestScores._best5score sc <? BestScores._best3score sc
    then BestOverlaps.upd_end false BestEdgeOverlap.clear bo
    else if BestScores._best3score sc <? BestScores._best5score sc
         then BestOverlaps.upd_end true BestEdgeOverlap.clear bo
         else bo
  else bo.

(** Modelled from the spec: the lopsided pass over all reads, each with the
    scores committed for it by the scoring pass (4.5). *)
Definition lopsidedAt (scorA : list BestScores.t) (i : nat) (bo : BestOverlaps.t)
    : BestOverlaps.t :=
  match scorA !! i with
  | Some sc => lopsidedEntry sc bo
  | None => bo
  end.

Definition removeLopsidedEdges (g : t) : t :=
  match _bestA g, _scorA g with
  | Some bestA, Some scorA => with_bestA (Some (imap (lopsidedAt scorA) bestA)) g
  | _, _ => g
  end.

(** The reads of the array that a test flags, by identifier. *)
Definition flagged (p : nat -> BestOverlaps.t -> bool) (bestA : list BestOverlaps.t)
    : gset N :=
  list_to_set
    (omap id (imap (fun i bo => if p i bo then Some (N.of_nat i) else None) bestA)).

(** Modelled from the spec: a spur holds an edge at one end and none at
    the other; the pass records it and, when clearing, clears the edge
    that remains (4.6). *)
Definition isSpur (bo : BestOverlaps.t) : bool :=
  xorb (retained (BestOverlaps._best5 bo)) (retained (BestOverlaps._best3 bo)).

(** Modelled from the spec: the spur pass on one read, and over all reads (4.6). *)
Definition spurEntry (bo : BestOverlaps.t) : BestOverlaps.t :=
  if isSpur bo && clearSpurEdges
  then
    {| BestOverlaps._best5 := BestEdgeOverlap.clear (BestOverlaps._best5 bo);
       BestOverlaps._best3 := BestEdgeOverlap.clear (BestOverlaps._best3 bo);
       BestOverlaps._isC := BestOverlaps._isC bo |}
  else bo.

Definition removeSpurs (g : t) : t :=
  match _bestA g with
  | Some bestA =>
      with_bestA (Some (spurEntry <$> bestA))
        (with_spur (_spur g ∪ flagged (fun _ => isSpur) bestA) g)
  | None => g
  end.

(** Modelled from the spec: the edge [e] of read [a] is answered when
    the best edge at the end of the target it attaches to points back
    to [a]; a read with a retained edge that is not answered is
    suspicious, and is flagged, not edited (4.6). *)
Definition pointsBack (bestA : list BestOverlaps.t) (a : N) (e : BestEdgeOverlap.t) : bool :=
  match bestA !! N.to_nat (BestEdgeOverlap.readId e) with
  | Some bo =>
      BestEdgeOverlap.readId (BestOverlaps.end_of (BestEdgeOverlap.read3p e) bo) =? a
  | None => false
  end.

(** Modelled from the spec: the suspicious pass on one read, and over all
    reads (4.6). *)
Definition isInconsistent (bestA : list BestOverlaps.t) (i : nat) (bo : BestOverlaps.t)
    : bool :=
  (retained (BestOverlaps._best5 bo)
   && negb (pointsBack bestA (N.of_nat i) (BestOverlaps._best5 bo)))
  || (retained (BestOverlaps._best3 bo)
      && negb (pointsBack bestA (N.of_nat i) (BestOverlaps._best3 bo))).

Definition removeSuspicious (g : t) : t :=
  match _bestA g with
  | Some bestA => with_suspicious (_suspicious g ∪ flagged (isInconsistent bestA) bestA) g
  | None => g
  end.

(** Modelled from the spec: the filter passes in their fixed order,
    high-error, contained-dovetail, lopsided, spur, suspicious, each of
    the four optional ones behind its flag (5, 6). *)
Definition filterPasses
    (filterSuspicious filterHighError filterLopsided filterSpur : bool) (g : t) : t :=
  let g1 := if filterHighError then removeHighErrorBestEdges g else g in
  let g2 := removeContainedDovetails g1 in
  let g3 := if filterLopsided then removeLopsidedEdges g2 else g2 in
  let g4 := if filterSpur then removeSpurs g3 else g3 in
  if filterSuspicious then removeSuspicious g4 else g4.

(** Modelled from the spec: the constructor, over the overlaps the
    source delivers: allocation, the scoring pass, the statistics pass,
    the filter passes (2, 5).  The spec names invalid erateGraph and
    deviationGraph values as fatal without saying which values those are;
    no such test is modelled. *)
Definition construct (erateGraph deviationGraph : double)
    (filterSuspicious filterHighError filterLopsided filterSpur : bool)
    (overlaps : list BAToverlap.t) : option t :=
  g ← findEdges (allocate erateGraph deviationGraph) overlaps;
  Some (filterPasses filterSuspicious filterHighError filterLopsided filterSpur
          (computeStatistics g)).

(** *** The scoring pass, read by read

  What one overlap does to the entry and the scores of the one read it
  is scored for, and what it does to those of the read at index [r]. *)

Definition with_arrays (bestA : list BestOverlaps.t) (scorA : list BestScores.t) (g : t) : t :=
  with_scorA (Some scorA) (with_bestA (Some bestA) g).

Definition scoredRead (olap : BAToverlap.t) : N :=
  if BestEdgeOverlap.isContainment olap then containedRead olap else BAToverlap.a_iid olap.

Definition localStep (olap : BAToverlap.t) (p : BestOverlaps.t * BestScores.t)
    : BestOverlaps.t * BestScores.t :=
  if BestEdgeOverlap.isContainment olap
  then (BestOverlaps.set_isC 1 p.1, p.2)
  else
    let a3p := AEndIs3prime olap in
    let newScr := ufield 64 (scoreOverlap olap) in
    let cand :=
      BestEdgeOverlap.of_overlap AS_MAX_READLEN_BITS AS_MAX_EVALUE_BITS BEndIs3prime
        olap BestEdgeOverlap.zeroed in
    if beats newScr cand (BestScores.score_of a3p p.2) (BestOverlaps.end_of a3p p.1)
    then (BestOverlaps.upd_end a3p
            (BestEdgeOverlap.set AS_MAX_READLEN_BITS AS_MAX_EVALUE_BITS BEndIs3prime olap) p.1,
          BestScores.set_score a3p newScr p.2)
    else p.

Definition stepAt (r : nat) (p : BestOverlaps.t * BestScores.t) (olap : BAToverlap.t)
    : BestOverlaps.t * BestScores.t :=
  if decide (N.to_nat (scoredRead olap) = r) then localStep olap p else p.

Definition view (bestA : list BestOverlaps.t) (scorA : list BestScores.t) (r : nat)
    : option (BestOverlaps.t * BestScores.t) :=
  bo ← bestA !! r; sc ← scorA !! r; Some (bo, sc).

Definition candidate (olap : BAToverlap.t) : BestEdgeOverlap.t :=
  BestEdgeOverlap.of_overlap AS_MAX_READLEN_BITS AS_MAX_EVALUE_BITS BEndIs3prime
    olap BestEdgeOverlap.zeroed.

(** Two dovetails scored for the same end of the same read that tie on
    score, error code and target read store the same edge. *)
Definition tieFree (o1 o2 : BAToverlap.t) : Prop :=
  BestEdgeOverlap.isContainment o1 = false ->
  BestEdgeOverlap.isContainment o2 = false ->
  BAToverlap.a_iid o1 = BAToverlap.a_iid o2 ->
  AEndIs3prime o1 = AEndIs3prime o2 ->
  ufield 64 (scoreOverlap o1) = ufield 64 (scoreOverlap o2) ->
  BestEdgeOverlap.evalue (candidate o1) = BestEdgeOverlap.evalue (candidate o2) ->
  BestEdgeOverlap.readId (candidate o1) = BestEdgeOverlap.readId (candidate o2) ->
  candidate o1 = candidate o2.

(** The composite of the edge-clearing passes on one entry. *)
Definition clearingEntry (filterHighError filterLopsided filterSpur : bool)
    (limit cutoff : double) (sc : option BestScores.t) (bo : BestOverlaps.t) : BestOverlaps.t :=
  let b1 := if filterHighError then highErrorEntry limit cutoff bo else bo in
  let b2 := containedEntry b1 in
  let b3 := if filterLopsided
            then match sc with Some sc => lopsidedEntry sc b2 | None => b2 end
            else b2 in
  if filterSpur then spurEntry b3 else b3.

(** One end's edge through the high-error, contained-dovetail and lopsided
    passes: whether the lopsided pass clears the given end of a read of
    scores [sc], and what the three passes make of the edge [e] of a read
    of containment flag [c]. *)
Definition lopsidedKills (sc : option BestScores.t) (threePrime : bool) : bool :=
  match sc with
  | Some sc =>
      lopsided (BestScores._best5score sc) (BestScores._best3score sc)
      && (if threePrime
          then negb (BestScores._best5score sc <? BestScores._best3score sc)
               && (BestScores._best3score sc <? BestScores._best5score sc)
          else BestScores._best5score sc <? BestScores._best3score sc)
  | None => false
  end.

Definition slotPasses (filterHighError filterLopsided : bool) (limit cutoff : double)
    (sc : option BestScores.t) (c : N) (threePrime : bool) (e : BestEdgeOverlap.t)
    : BestEdgeOverlap.t :=
  let e1 := clearIf (filterHighError && isHighError limit cutoff e) e in
  let e2 := clearIf (negb (c =? 0) && inconsistentWithContainment e1) e1 in
  clearIf (filterLopsided && lopsidedKills sc threePrime) e2.

(** A graph over the array of the full read set, with a score per entry. *)
Definition over_arrays (g : t) (bestA : list BestOverlaps.t) (scorA : list BestScores.t)
    : Prop :=
  _bestA g = Some bestA
  /\ _scorA g = Some scorA
  /\ _restrictEnabled g = false
  /\ length scorA = length bestA.

(** The scores kept for the read at index [r], if any. *)
Definition scoresOf (g : t) (r : nat) : option BestScores.t :=
  match _scorA g with
  | Some scorA => scorA !! r
  | None => None
  end.

(** What the filter passes never write. *)
Definition same_rest (g g' : t) : Prop :=
  _scorA g' = _scorA g
  /\ _errorLimit g' = _errorLimit g
  /\ _erateGraph g' = _erateGraph g
  /\ _bestM g' = _bestM g
  /\ _singleton g' = _singleton g.

End Graph.

End BestOverlapGraph.


Arguments BestOverlapGraph.mk {double}.
Arguments BestOverlapGraph._bestA {double}.
Arguments BestOverlapGraph._scorA {double}.
Arguments BestOverlapGraph._bestM {double}.
Arguments BestOverlapGraph._suspicious {double}.
Arguments BestOverlapGraph._spur {double}.
Arguments BestOverlapGraph.with_bestM {double}.
Arguments BestOverlapGraph.with_bestA {double}.
Arguments BestOverlapGraph.best_at {double}.
Arguments BestOverlapGraph.getBestEdgeOverlap {double}.
Arguments BestOverlapGraph.followOverlap {double}.
Arguments BestOverlapGraph.isContained {double}.
Arguments BestOverlapGraph.isSuspicious {double}.
Arguments BestOverlapGraph.setContained {double}.
Arguments BestOverlapGraph.upd_best {double}.
Arguments BestOverlapGraph.in_storage {double}.
Arguments BestOverlapGraph.entry {double}.

(** What a query may do to the graph: nothing at all to a graph that keeps
  the array; to one that keeps the keyed mapping, no more than enter the
  read asked for, and every read reads as before.  The second clause says
  that all members but [_bestM] are as they were. *)
Definition query_frame {double : Type} (g g' : BestOverlapGraph.t double) : Prop :=
  (is_Some (BestOverlapGraph._bestA g) -> g' = g)
  /\ g' = BestOverlapGraph.with_bestM (BestOverlapGraph._bestM g') g
  /\ (forall r, BestOverlapGraph.entry g' r = BestOverlapGraph.entry g r).

(** ** Concrete configurations and graphs *)

Module Examples.

(** A configuration: 21 bits of read length, 12 bits of error code, rates
    kept as their codes. *)
Definition readlen_bits : N := 21.
Definition evalue_bits : N := 12.
Definition decode (e : N) : N := e.
Definition above (x y : N) : bool := y <? x.

(** An overlap off the 5' end of A reaches the 3' end of an unflipped B
    and the 5' end of a flipped one; off the 3' end it is the converse. *)
Definition dovetailsInto3prime (olap : BAToverlap.t) : bool :=
  if (BAToverlap.a_hang olap <? 0)%Z
  then negb (BAToverlap.flipped olap)
  else BAToverlap.flipped olap.

Definition set5 := BestEdgeOverlap.set5 readlen_bits evalue_bits.

(** A graph over the array [bestA], and one over the keyed mapping [bestM]. *)
Definition dense (bestA : list BestOverlaps.t) : BestOverlapGraph.t N :=
  BestOverlapGraph.mk (Some bestA) (Some (replicate (length bestA) BestScores.new))
    0 0 0 0 0 0 0 0 0 ∅ ∅ ∅ ∅ ∅ None false 0 0 0.

Definition sparse (bestM : gmap N BestOverlaps.t) : BestOverlapGraph.t N :=
  BestOverlapGraph.mk None None 0 0 0 0 0 0 0 0 0 ∅ ∅ ∅ bestM ∅ None true 0 0 0.

(** Read 1 whose 5' edge names read 2^31 + 5. *)
Definition far_edge : BestEdgeOverlap.t :=
  set5 (2 ^ 31 + 5) false (-7) (-9) 3 BestEdgeOverlap.zeroed.

Definition far_graph : BestOverlapGraph.t N :=
  dense [ BestOverlaps.value_init;
          BestOverlaps.mk far_edge (set5 2 true 4 6 1 BestEdgeOverlap.zeroed) 0;
          BestOverlaps.value_init ].

(** Read 1 with no edge at its 5' end and an edge to read 2 at its 3' end. *)
Definition open_graph : BestOverlapGraph.t N :=
  dense [ BestOverlaps.value_init;
          BestOverlaps.mk (BestEdgeOverlap.clear far_edge)
                          (set5 2 true 4 6 1 BestEdgeOverlap.zeroed) 0;
          BestOverlaps.value_init ].

Definition dovetail_1_2 : BAToverlap.t := BAToverlap.mk 1 2 (-5) (-3) false 10.
Definition contain_3_4 : BAToverlap.t := BAToverlap.mk 3 4 0 0 true 7.

(** A scoring formula of the kind the spec asks for: the length of the
    overlap on a read A of 1000 bases, weighted by the distance of the
    error code from the largest one; it grows with the length and falls
    with the error. *)
Definition score (olap : BAToverlap.t) : N :=
  Z.to_N (1000 - Z.abs (if (BAToverlap.a_hang olap <? 0)%Z
                        then BAToverlap.b_hang olap
                        else BAToverlap.a_hang olap))
  * (2 ^ 12 - BAToverlap.evalue olap).

(** Statistics that filter nothing, tests that clear nothing. *)
Definition statistics (rates : list N) : N * N * N * N := (0, 0, 0, 0).
Definition ceiling (deviation : N) (st : N * N * N * N) : N := 2 ^ 12.
Definition consistent (e : BestEdgeOverlap.t) : bool := false.
Definition balanced (s5 s3 : N) : bool := false.

(** The constructor over five reads, with the error cutoff at [cutoff],
    the high-error pass clearing on either of its tests. *)
Definition construct (cutoff : N) :=
  BestOverlapGraph.construct N decode above readlen_bits evalue_bits dovetailsInto3prime
    5 score statistics ceiling consistent balanced true true cutoff 0.

Definition filterPasses :=
  BestOverlapGraph.filterPasses N decode above consistent balanced true true.

(** A shorter overlap of read 1, with read 3. *)
Definition dovetail_1_3 : BAToverlap.t := BAToverlap.mk 1 3 (-5) (-20) false 10.

End Examples.

(** ** Field ranges of a stored edge *)

(** Every field of the record holds a value of its declared width:
    [uint32 _id], the two hangs in [AS_MAX_READLEN_BITS + 1] signed bits,
    the error code in [AS_MAX_EVALUE_BITS] bits. *)
Definition BestEdgeOverlap_in_fields (AS_MAX_READLEN_BITS AS_MAX_EVALUE_BITS : N)
    (e : BestEdgeOverlap.t) : Prop :=
  BestEdgeOverlap._id e < 2 ^ 32
  /\ (- 2 ^ Z.of_N AS_MAX_READLEN_BITS <= BestEdgeOverlap._ahang e
      < 2 ^ Z.of_N AS_MAX_READLEN_BITS)%Z
  /\ (- 2 ^ Z.of_N AS_MAX_READLEN_BITS <= BestEdgeOverlap._bhang e
      < 2 ^ Z.of_N AS_MAX_READLEN_BITS)%Z
  /\ BestEdgeOverlap._evalue e < 2 ^ AS_MAX_EVALUE_BITS.

(** [getBestEdgeOverlap(readid, threePrime)->set(id, e3p, ahang, bhang, evalue)]
    and [getBestEdgeOverlap(readid, threePrime)->clear()]: a member called
    through the pointer that the query returns acts on the slot in the
    storage. *)
Definition through_pointer {double : Type} (this : BestOverlapGraph.t double)
    (readid : N) (threePrime : bool) (member : BestEdgeOverlap.t -> BestEdgeOverlap.t)
    : option (BestOverlapGraph.t double) :=
  BestOverlapGraph.upd_best this readid (BestOverlaps.upd_end threePrime member).

(** * Properties *)

(** ** ReadEnd *)

Lemma ufield_small w x : x < 2 ^ w -> ufield w x = x.
Proof. intros H. unfold ufield. now apply N.mod_small. Qed.

Lemma sfield_small w x :
  (- 2 ^ Z.of_N w <= x < 2 ^ Z.of_N w)%Z -> sfield w x = x.
Proof.
  intros H. unfold sfield.
  rewrite Z.pow_add_r by lia. rewrite Z.pow_1_r.
  rewrite Z.mod_small by lia. lia.
Qed.

(** C9: an identifier below 2^31 passes through [ReadEnd(id, e3p)], with
  its end flag, unchanged; an identifier at or above 2^31 is stored
  reduced modulo 2^31, the identifier being a 31-bit field. *)
Theorem ReadEnd_id_bit_budget (id : N) (e3p : bool) :
  (id < 2 ^ 31 ->
     ReadEnd.readId (ReadEnd.new id e3p) = id
     /\ ReadEnd.read3p (ReadEnd.new id e3p) = e3p)
  /\ (2 ^ 31 <= id ->
        ReadEnd.readId (ReadEnd.new id e3p) = id mod 2 ^ 31
        /\ ReadEnd.read3p (ReadEnd.new id e3p) = e3p).
Proof.
  assert (He : ReadEnd.read3p (ReadEnd.new id e3p) = e3p)
    by (unfold ReadEnd.read3p; simpl; now destruct e3p).
  split; intros H; (split; [| exact He]).
  - unfold ReadEnd.readId; simpl. now apply ufield_small.
  - reflexivity.
Qed.

Lemma ReadEnd_id_bit_budget_witness :
  (ReadEnd.readId (ReadEnd.new 7 true) = 7 /\ ReadEnd.read3p (ReadEnd.new 7 true) = true)
  /\ (ReadEnd.readId (ReadEnd.new (2 ^ 31 + 5) false) = 5
      /\ ReadEnd.read3p (ReadEnd.new (2 ^ 31 + 5) false) = false).
Proof.
  split.
  - apply (proj1 (ReadEnd_id_bit_budget 7 true)). reflexivity.
  - apply (proj2 (ReadEnd_id_bit_budget (2 ^ 31 + 5) false)). discriminate.
Defined.

(** ** BestEdgeOverlap *)

(** C2: [set] stores, for a containment by the signs of the hangs (a_hang
    <= 0 and b_hang >= 0, or a_hang >= 0 and b_hang <= 0), the overlap's
    flipped flag as the end bit, and otherwise whether the overlap reaches
    the 3' end of the B read; the target read, both hangs and the error
    code, being values of the fields they go into, are stored as they are. *)
Theorem BestEdgeOverlap_set_stores (rb eb : N) (BEndIs3prime : BAToverlap.t -> bool)
    (olap : BAToverlap.t) (this : BestEdgeOverlap.t) :
  (((BAToverlap.a_hang olap <= 0 /\ BAToverlap.b_hang olap >= 0)
    \/ (BAToverlap.a_hang olap >= 0 /\ BAToverlap.b_hang olap <= 0))%Z ->
   BestEdgeOverlap._e3p (BestEdgeOverlap.set rb eb BEndIs3prime olap this)
   = BAToverlap.flipped olap)
  /\ (~ ((BAToverlap.a_hang olap <= 0 /\ BAToverlap.b_hang olap >= 0)
         \/ (BAToverlap.a_hang olap >= 0 /\ BAToverlap.b_hang olap <= 0))%Z ->
      BestEdgeOverlap._e3p (BestEdgeOverlap.set rb eb BEndIs3prime olap this)
      = BEndIs3prime olap)
  /\ (BestEdgeOverlap.storable rb eb olap ->
      BestEdgeOverlap._id (BestEdgeOverlap.set rb eb BEndIs3prime olap this)
      = BAToverlap.b_iid olap
      /\ BestEdgeOverlap._ahang (BestEdgeOverlap.set rb eb BEndIs3prime olap this)
         = BAToverlap.a_hang olap
      /\ BestEdgeOverlap._bhang (BestEdgeOverlap.set rb eb BEndIs3prime olap this)
         = BAToverlap.b_hang olap
      /\ BestEdgeOverlap._evalue (BestEdgeOverlap.set rb eb BEndIs3prime olap this)
         = BAToverlap.evalue olap).
Proof.
  simpl. split; [| split].
  - intros Hc. unfold BestEdgeOverlap.isContainment.
    destruct Hc as [[H1 H2] | [H1 H2]].
    + replace (BAToverlap.a_hang olap <=? 0)%Z with true by (symmetry; lia).
      replace (BAToverlap.b_hang olap >=? 0)%Z with true by (symmetry; lia).
      reflexivity.
    + replace (BAToverlap.a_hang olap >=? 0)%Z with true by (symmetry; lia).
      replace (BAToverlap.b_hang olap <=? 0)%Z with true by (symmetry; lia).
      now rewrite orb_true_r.
  - intros Hc. unfold BestEdgeOverlap.isContainment.
    destruct ((BAToverlap.a_hang olap <=? 0)%Z && (BAToverlap.b_hang olap >=? 0)%Z
              || (BAToverlap.a_hang olap >=? 0)%Z && (BAToverlap.b_hang olap <=? 0)%Z)
      eqn:E; [| reflexivity].
    exfalso. apply Hc.
    apply orb_true_iff in E as [E | E]; apply andb_true_iff in E as [E1 E2]; lia.
  - intros (Hid & Ha & Hb & He). repeat split.
    + now apply ufield_small.
    + now apply sfield_small.
    + now apply sfield_small.
    + now apply ufield_small.
Qed.

Lemma BestEdgeOverlap_set_stores_witness :
  BestEdgeOverlap._e3p
    (BestEdgeOverlap.set 21 12 Examples.dovetailsInto3prime Examples.contain_3_4
       BestEdgeOverlap.zeroed) = true
  /\ BestEdgeOverlap._e3p
       (BestEdgeOverlap.set 21 12 Examples.dovetailsInto3prime Examples.dovetail_1_2
          BestEdgeOverlap.zeroed) = true
  /\ BestEdgeOverlap._ahang
       (BestEdgeOverlap.set 21 12 Examples.dovetailsInto3prime Examples.dovetail_1_2
          BestEdgeOverlap.zeroed) = (-5)%Z.
Proof.
  pose proof (BestEdgeOverlap_set_stores 21 12 Examples.dovetailsInto3prime
                Examples.contain_3_4 BestEdgeOverlap.zeroed) as (Hflip & _).
  pose proof (BestEdgeOverlap_set_stores 21 12 Examples.dovetailsInto3prime
                Examples.dovetail_1_2 BestEdgeOverlap.zeroed) as (_ & Hend & Hnum).
  split; [| split].
  - apply Hflip. simpl. lia.
  - apply Hend. simpl. lia.
  - apply Hnum. unfold BestEdgeOverlap.storable. simpl. lia.
Defined.

(** C6: the packed width of the end bit, the two hangs and the error code
  is 1 + (AS_MAX_READLEN_BITS + 1) + (AS_MAX_READLEN_BITS + 1) +
  AS_MAX_EVALUE_BITS; a configuration in which it exceeds the 64 bits of
  the storage word ends the build with an error, so that no operation of
  the class exists to run, and any other configuration builds. *)
Theorem packed_width_checked_at_build (rb eb : N) (A : Type) (operations : A) :
  BestEdgeOverlap.packed_width rb eb = 1 + (rb + 1) + (rb + 1) + eb
  /\ (64 < BestEdgeOverlap.packed_width rb eb ->
      exists message,
        BestEdgeOverlap.translate rb eb operations = BestEdgeOverlap.hash_error A message)
  /\ (BestEdgeOverlap.packed_width rb eb <= 64 ->
      BestEdgeOverlap.translate rb eb operations = BestEdgeOverlap.translated A operations).
Proof.
  assert (Hw : BestEdgeOverlap.packed_width rb eb = 1 + (rb + 1) + (rb + 1) + eb)
    by (unfold BestEdgeOverlap.packed_width; simpl; lia).
  split; [exact Hw |]. rewrite Hw. unfold BestEdgeOverlap.translate.
  split; intros H.
  - replace (64 <? 1 + rb + 1 + rb + 1 + eb) with true by (symmetry; apply N.ltb_lt; lia).
    eexists. reflexivity.
  - replace (64 <? 1 + rb + 1 + rb + 1 + eb) with false by (symmetry; apply N.ltb_ge; lia).
    reflexivity.
Qed.

Lemma packed_width_checked_at_build_witness :
  (exists message,
     BestEdgeOverlap.translate 30 12 (BestEdgeOverlap.set 30 12 Examples.dovetailsInto3prime)
     = BestEdgeOverlap.hash_error _ message)
  /\ BestEdgeOverlap.translate 21 12 (BestEdgeOverlap.set 21 12 Examples.dovetailsInto3prime)
     = BestEdgeOverlap.translated _ (BestEdgeOverlap.set 21 12 Examples.dovetailsInto3prime).
Proof.
  split.
  - apply (packed_width_checked_at_build 30 12). reflexivity.
  - apply (packed_width_checked_at_build 21 12). discriminate.
Defined.

(** ** The query interface *)

Section Queries.

Context {double : Type}.
Implicit Types (g : BestOverlapGraph.t double) (e : ReadEnd.t).

Lemma getBestEdgeOverlap_Some g readid threePrime edge g' :
  BestOverlapGraph.getBestEdgeOverlap g readid threePrime = Some (edge, g') ->
  exists bo, BestOverlapGraph.best_at g readid = Some (bo, g')
             /\ edge = BestOverlaps.end_of threePrime bo.
Proof.
  unfold BestOverlapGraph.getBestEdgeOverlap.
  destruct (BestOverlapGraph.best_at g readid) as [[bo g1] |]; [| discriminate].
  intros [= <- <-]. eauto.
Qed.

Lemma best_at_in_storage g readid :
  BestOverlapGraph.in_storage g readid ->
  exists bo g', BestOverlapGraph.best_at g readid = Some (bo, g').
Proof.
  unfold BestOverlapGraph.in_storage, BestOverlapGraph.best_at.
  destruct (BestOverlapGraph._bestA g) as [bestA |].
  - intros H. apply lookup_lt_is_Some_2 in H as [bo ->]. eauto.
  - intros _. destruct (map_index _ _ _). eauto.
Qed.

Lemma best_at_frame g readid bo g' :
  BestOverlapGraph.best_at g readid = Some (bo, g') ->
  query_frame g g' /\ BestOverlapGraph.entry g readid = Some bo.
Proof.
  unfold BestOverlapGraph.best_at, query_frame, BestOverlapGraph.entry.
  destruct g as [bestA scorA m sd md mad ns n1 n2 i1 i2 sus sing spur bestM scorM rs re eg dg el].
  simpl. destruct bestA as [bestA |].
  - destruct (bestA !! N.to_nat readid) as [bo' |] eqn:E; [| discriminate].
    intros [= <- <-]. simpl. repeat split; auto.
  - unfold map_index. destruct (bestM !! readid) as [bo' |] eqn:E; intros [= <- <-].
    + split; [split; [| split] |].
      * intros _. reflexivity.
      * reflexivity.
      * intros r. reflexivity.
      * reflexivity.
    + split; [split; [| split] |].
      * intros [? [=]].
      * reflexivity.
      * intros r. cbn. f_equal. destruct (decide (readid = r)) as [-> | Hne].
        -- now rewrite lookup_insert_eq, E.
        -- now rewrite lookup_insert_ne.
      * reflexivity.
Qed.

(** After [getBestEdgeOverlap(readid, threePrime)->clear()] the query
    returns the cleared record. *)
Lemma getBestEdgeOverlap_after_clear g readid threePrime g1 :
  BestOverlapGraph.upd_best g readid (BestOverlaps.upd_end threePrime BestEdgeOverlap.clear)
  = Some g1 ->
  exists g2,
    BestOverlapGraph.getBestEdgeOverlap g1 readid threePrime
    = Some (BestEdgeOverlap.clear BestEdgeOverlap.zeroed, g2).
Proof.
  unfold BestOverlapGraph.upd_best, BestOverlapGraph.getBestEdgeOverlap,
    BestOverlapGraph.best_at.
  destruct g as [bestA scorA m sd md mad ns n1 n2 i1 i2 sus sing spur bestM scorM rs re eg dg el].
  cbn [BestOverlapGraph._bestA BestOverlapGraph._bestM]. destruct bestA as [bestA |].
  - destruct (bestA !! N.to_nat readid) as [bo |] eqn:E; [| discriminate].
    intros [= <-]. cbn [BestOverlapGraph._bestA BestOverlapGraph.with_bestA].
    rewrite list_lookup_insert_eq by (eapply lookup_lt_Some, E).
    eexists. now destruct threePrime.
  - destruct (map_index BestOverlaps.value_init bestM readid) as [bo mp].
    intros [= <-].
    cbn [BestOverlapGraph._bestA BestOverlapGraph._bestM BestOverlapGraph.with_bestM].
    unfold map_index at 1. rewrite lookup_insert_eq.
    eexists. now destruct threePrime.
Qed.

(** C1: [followOverlap] answers the sentinel end with the default sentinel
    (identifier 0, 5' end) and leaves the graph alone; any other end, whose
    best edge names a read within the 31-bit identifier budget of a
    [ReadEnd], it answers with the read of that best edge and with the
    negation of the edge's end bit. *)
Theorem followOverlap_determined g e :
  (ReadEnd.readId e = 0 ->
     BestOverlapGraph.followOverlap g e = Some (ReadEnd.default, g)
     /\ ReadEnd.readId ReadEnd.default = 0
     /\ ReadEnd.read3p ReadEnd.default = false)
  /\ (ReadEnd.readId e <> 0 ->
      forall edge g',
        BestOverlapGraph.getBestEdgeOverlap g (ReadEnd.readId e) (ReadEnd.read3p e)
        = Some (edge, g') ->
        BestEdgeOverlap.readId edge < 2 ^ 31 ->
        exists next,
          BestOverlapGraph.followOverlap g e = Some (next, g')
          /\ ReadEnd.readId next = BestEdgeOverlap.readId edge
          /\ ReadEnd.read3p next = negb (BestEdgeOverlap.read3p edge)
          /\ ReadEnd.read5p next = BestEdgeOverlap.read3p edge).
Proof.
  split.
  - intros H. unfold BestOverlapGraph.followOverlap. rewrite H. simpl. auto.
  - intros H edge g' Hg Hlt. unfold BestOverlapGraph.followOverlap.
    apply N.eqb_neq in H. rewrite H, Hg.
    eexists. split; [reflexivity |]. split; [| split].
    + unfold ReadEnd.readId. simpl. now apply ufield_small.
    + unfold ReadEnd.read3p. simpl. now destruct (negb _).
    + unfold ReadEnd.read5p. simpl. now destruct (BestEdgeOverlap.read3p edge).
Qed.

(** C10: from an end that is not the sentinel and has the cleared edge as
    its best edge, [followOverlap] returns [ReadEnd(0, true)]; its
    identifier is 0, so following once more gives the default sentinel,
    but [operator==] tells the two apart. *)
Theorem followOverlap_cleared_edge g g' e (was : BestEdgeOverlap.t) :
  ReadEnd.readId e <> 0 ->
  BestOverlapGraph.getBestEdgeOverlap g (ReadEnd.readId e) (ReadEnd.read3p e)
  = Some (BestEdgeOverlap.clear was, g') ->
  BestOverlapGraph.followOverlap g e = Some (ReadEnd.new 0 true, g')
  /\ ReadEnd.readId (ReadEnd.new 0 true) = 0
  /\ BestOverlapGraph.followOverlap g' (ReadEnd.new 0 true) = Some (ReadEnd.default, g')
  /\ ReadEnd.eq (ReadEnd.new 0 true) ReadEnd.default = false
  /\ ReadEnd.ne (ReadEnd.new 0 true) ReadEnd.default = true.
Proof.
  intros H Hg. unfold BestOverlapGraph.followOverlap at 1.
  apply N.eqb_neq in H. rewrite H, Hg. repeat split.
Qed.

End Queries.

Lemma followOverlap_determined_witness :
  BestOverlapGraph.followOverlap Examples.far_graph ReadEnd.default
  = Some (ReadEnd.default, Examples.far_graph)
  /\ exists next,
       BestOverlapGraph.followOverlap Examples.far_graph (ReadEnd.new 1 true)
       = Some (next, Examples.far_graph)
       /\ ReadEnd.readId next = 2 /\ ReadEnd.read3p next = false.
Proof.
  split.
  - apply (proj1 (followOverlap_determined Examples.far_graph ReadEnd.default)).
    reflexivity.
  - destruct (proj2 (followOverlap_determined Examples.far_graph (ReadEnd.new 1 true))
                (ltac:(discriminate)) _ _ eq_refl eq_refl) as (next & Hf & Hid & He & _).
    exists next. split; [exact Hf |]. split; [exact Hid | exact He].
Defined.

Lemma followOverlap_cleared_edge_witness :
  BestOverlapGraph.followOverlap Examples.open_graph (ReadEnd.new 1 false)
  = Some (ReadEnd.new 0 true, Examples.open_graph)
  /\ BestOverlapGraph.followOverlap Examples.open_graph (ReadEnd.new 0 true)
     = Some (ReadEnd.default, Examples.open_graph)
  /\ ReadEnd.eq (ReadEnd.new 0 true) ReadEnd.default = false.
Proof.
  destruct (followOverlap_cleared_edge Examples.open_graph Examples.open_graph
              (ReadEnd.new 1 false) Examples.far_edge ltac:(discriminate) eq_refl)
    as (H1 & _ & H2 & H3 & _).
  split; [exact H1 |]. split; [exact H2 | exact H3].
Defined.

(** ** Construction *)

Section Construction.

Context {double : Type}.
Variable AS_OVS_decodeEvalue : N -> double.
Variable exceeds : double -> double -> bool.
Variables AS_MAX_READLEN_BITS AS_MAX_EVALUE_BITS : N.
Variable BEndIs3prime : BAToverlap.t -> bool.
Variable numReads : N.
Variable scoreOverlap : BAToverlap.t -> N.
Variable edgeStatistics : list double -> double * double * double * double.
Variable errorCeiling : double -> double * double * double * double -> double.
Variable inconsistentWithContainment : BestEdgeOverlap.t -> bool.
Variable lopsided : N -> N -> bool.
Variable clearSpurEdges : bool.
Variable eitherTestClears : bool.

Implicit Types (g : BestOverlapGraph.t double) (olap : BAToverlap.t).
Implicit Types (bestA : list BestOverlaps.t) (scorA : list BestScores.t).
Implicit Types (bo : BestOverlaps.t) (sc : BestScores.t) (e : BestEdgeOverlap.t).

Local Abbreviation scoreOne :=
  (BestOverlapGraph.scoreOne double AS_MAX_READLEN_BITS AS_MAX_EVALUE_BITS BEndIs3prime
     scoreOverlap).
Local Abbreviation findEdges :=
  (BestOverlapGraph.findEdges double AS_MAX_READLEN_BITS AS_MAX_EVALUE_BITS BEndIs3prime
     scoreOverlap).
Local Abbreviation localStep :=
  (BestOverlapGraph.localStep AS_MAX_READLEN_BITS AS_MAX_EVALUE_BITS BEndIs3prime
     scoreOverlap).
Local Abbreviation stepAt :=
  (BestOverlapGraph.stepAt AS_MAX_READLEN_BITS AS_MAX_EVALUE_BITS BEndIs3prime scoreOverlap).
Local Abbreviation candidate :=
  (BestOverlapGraph.candidate AS_MAX_READLEN_BITS AS_MAX_EVALUE_BITS BEndIs3prime).
Local Abbreviation tieFree :=
  (BestOverlapGraph.tieFree AS_MAX_READLEN_BITS AS_MAX_EVALUE_BITS BEndIs3prime scoreOverlap).
Local Abbreviation with_arrays := (BestOverlapGraph.with_arrays double).
Local Abbreviation view := BestOverlapGraph.view.
Local Abbreviation scoredRead := BestOverlapGraph.scoredRead.

Local Abbreviation dense := (BestOverlapGraph.over_arrays double).

Lemma dense_with_arrays g bestA scorA bestA' scorA' :
  dense g bestA scorA -> length scorA' = length bestA' ->
  dense (with_arrays bestA' scorA' g) bestA' scorA'.
Proof. intros (_ & _ & Hr & _) Hl. destruct g. now repeat split. Qed.

Lemma with_arrays_twice g bestA scorA bestA' scorA' :
  with_arrays bestA' scorA' (with_arrays bestA scorA g) = with_arrays bestA' scorA' g.
Proof. now destruct g. Qed.

Lemma with_arrays_same g bestA scorA :
  dense g bestA scorA -> with_arrays bestA scorA g = g.
Proof. intros (Ha & Hs & _). destruct g. simpl in *. now subst. Qed.

Lemma view_Some bestA scorA r bo :
  length scorA = length bestA -> bestA !! r = Some bo ->
  exists sc, scorA !! r = Some sc /\ view bestA scorA r = Some (bo, sc).
Proof.
  intros Hl Hb. destruct (lookup_lt_is_Some_2 scorA r) as [sc Hs].
  { rewrite Hl. eapply lookup_lt_Some, Hb. }
  exists sc. split; [exact Hs |]. unfold view. now rewrite Hb, Hs.
Qed.

Lemma view_insert_both bestA scorA i r bo sc bo' sc' :
  bestA !! i = Some bo -> scorA !! i = Some sc ->
  view (<[i := bo']> bestA) (<[i := sc']> scorA) r
  = (fun p => if decide (i = r) then (bo', sc') else p) <$> view bestA scorA r.
Proof.
  intros Hb Hs. unfold view. destruct (decide (i = r)) as [<- | Hne].
  - rewrite !list_lookup_insert_eq by (eapply lookup_lt_Some; eauto).
    now rewrite Hb, Hs.
  - rewrite !list_lookup_insert_ne by done.
    destruct (bestA !! r); [| done]. simpl. now destruct (scorA !! r).
Qed.

(** One overlap, on a graph over the array: the pass stops where the read
    scored has no entry, and otherwise rewrites the entry and the scores of
    that read alone. *)
Lemma scoreOne_arrays g bestA scorA olap :
  dense g bestA scorA ->
  match bestA !! N.to_nat (scoredRead olap) with
  | None => scoreOne g olap = None
  | Some _ =>
      exists bestA' scorA',
        scoreOne g olap = Some (with_arrays bestA' scorA' g)
        /\ length bestA' = length bestA
        /\ length scorA' = length scorA
        /\ forall r, view bestA' scorA' r = (fun p => stepAt r p olap) <$> view bestA scorA r
  end.
Proof.
  intros (Ha & Hs & Hr & Hl).
  destruct g as [? ? m sd md mad ns n1 n2 i1 i2 sus sing spur bestM scorM rs re eg dg el].
  simpl in Ha, Hs, Hr. subst.
  unfold BestOverlapGraph.scoreOne, BestOverlapGraph.scoredRead, BestOverlapGraph.stepAt,
    BestOverlapGraph.scoredRead, BestOverlapGraph.localStep.
  destruct (BestEdgeOverlap.isContainment olap) eqn:Hc.
  - unfold BestOverlapGraph.scoreContainment, BestOverlapGraph.setContained,
      BestOverlapGraph.upd_best. cbn [BestOverlapGraph._bestA].
    destruct (bestA !! N.to_nat (BestOverlapGraph.containedRead olap)) as [bo |] eqn:Hb;
      [| reflexivity].
    destruct (view_Some bestA scorA _ bo Hl Hb) as (sc & Hsc & _).
    exists (<[N.to_nat (BestOverlapGraph.containedRead olap) := BestOverlaps.set_isC 1 bo]> bestA),
      scorA.
    split; [reflexivity |].
    split; [apply length_insert | split; [reflexivity |]].
    intros r. rewrite <- (list_insert_id scorA _ sc Hsc) at 1.
    rewrite (view_insert_both _ _ _ _ bo sc) by done.
    unfold view. destruct (bestA !! r) as [bo' |] eqn:Hb'; [| done].
    destruct (scorA !! r) as [sc' |] eqn:Hs'; [| done]. cbn.
    destruct (decide _) as [<- |]; [| done]. cbn. congruence.
  - unfold BestOverlapGraph.scoreEdge, BestOverlapGraph.getBestEdgeOverlap,
      BestOverlapGraph.best_at. cbn [BestOverlapGraph._bestA].
    destruct (bestA !! N.to_nat (BAToverlap.a_iid olap)) as [bo |] eqn:Hb;
      [| reflexivity].
    destruct (view_Some bestA scorA _ bo Hl Hb) as (sc & Hsc & _).
    cbn [mbind option_bind]. unfold BestOverlapGraph.bestscore.
    cbn [BestOverlapGraph._restrictEnabled BestOverlapGraph._scorA negb].
    rewrite Hsc. cbn [mbind option_bind].
    destruct (BestOverlapGraph.beats _ _ _ _) eqn:Hbeat.
    + unfold BestOverlapGraph.upd_best, BestOverlapGraph.with_bestA.
      cbn [BestOverlapGraph._bestA]. rewrite Hb. cbn [mbind option_bind].
      unfold BestOverlapGraph.set_bestscore.
      cbn [BestOverlapGraph._restrictEnabled BestOverlapGraph._scorA negb].
      rewrite Hsc.
      eexists (<[N.to_nat (BAToverlap.a_iid olap) := _]> bestA),
        (<[N.to_nat (BAToverlap.a_iid olap) := _]> scorA).
      split; [reflexivity |].
      split; [apply length_insert | split; [apply length_insert |]].
      intros r. rewrite (view_insert_both _ _ _ _ bo sc) by done.
      unfold view. destruct (bestA !! r) as [bo' |] eqn:Hb'; [| done].
      destruct (scorA !! r) as [sc' |] eqn:Hs''; [| done]. cbn.
      destruct (decide _) as [<- |]; [| done].
      assert (bo' = bo) as -> by congruence. assert (sc' = sc) as -> by congruence.
      cbn. now rewrite Hbeat.
    + exists bestA, scorA. split; [reflexivity | split; [done | split; [done |]]].
      intros r. unfold view. destruct (bestA !! r) as [bo' |] eqn:Hb'; [| done].
      destruct (scorA !! r) as [sc' |] eqn:Hs''; [| done]. cbn.
      destruct (decide _) as [<- |]; [| done].
      assert (bo' = bo) as -> by congruence. assert (sc' = sc) as -> by congruence.
      cbn. now rewrite Hbeat.
Qed.

Lemma view_ext bestA1 scorA1 bestA2 scorA2 :
  length scorA1 = length bestA1 -> length bestA2 = length bestA1 ->
  length scorA2 = length bestA1 ->
  (forall r, view bestA1 scorA1 r = view bestA2 scorA2 r) ->
  bestA1 = bestA2 /\ scorA1 = scorA2.
Proof.
  intros H1 H2 H3 Hv.
  assert (Hr : forall r, bestA1 !! r = bestA2 !! r /\ scorA1 !! r = scorA2 !! r).
  { intros r. specialize (Hv r). unfold view in Hv.
    destruct (decide (r < length bestA1)%nat) as [Hlt | Hge].
    - destruct (lookup_lt_is_Some_2 bestA1 r Hlt) as [b1 Hb1].
      destruct (lookup_lt_is_Some_2 scorA1 r ltac:(lia)) as [s1 Hs1].
      destruct (lookup_lt_is_Some_2 bestA2 r ltac:(lia)) as [b2 Hb2].
      destruct (lookup_lt_is_Some_2 scorA2 r ltac:(lia)) as [s2 Hs2].
      rewrite Hb1, Hs1, Hb2, Hs2 in *. simpl in Hv. split; congruence.
    - rewrite !lookup_ge_None_2 by lia. done. }
  split; apply list_eq; intros r; apply Hr.
Qed.

(** The scoring pass on a graph over the array: it runs through when every
    read scored has an entry, and then each read's entry and scores are
    those the overlaps scored for it make of them, in their order. *)
Lemma findEdges_arrays overlaps : forall g bestA scorA,
  dense g bestA scorA ->
  (Forall (fun o => (N.to_nat (scoredRead o) < length bestA)%nat) overlaps ->
   exists bestA' scorA',
     findEdges g overlaps = Some (with_arrays bestA' scorA' g)
     /\ length bestA' = length bestA
     /\ length scorA' = length scorA
     /\ forall r, view bestA' scorA' r
                  = (fun p => foldl (stepAt r) p overlaps) <$> view bestA scorA r)
  /\ (~ Forall (fun o => (N.to_nat (scoredRead o) < length bestA)%nat) overlaps ->
      findEdges g overlaps = None).
Proof.
  induction overlaps as [| olap rest IH]; intros g bestA scorA Hd.
  - split.
    + intros _. exists bestA, scorA. simpl.
      rewrite (with_arrays_same g bestA scorA Hd). repeat split.
      intros r. now destruct (view bestA scorA r).
    + intros H. destruct H. constructor.
  - pose proof (scoreOne_arrays g bestA scorA olap Hd) as H1. simpl.
    destruct (bestA !! N.to_nat (scoredRead olap)) as [bo |] eqn:Hb.
    + destruct H1 as (bestA1 & scorA1 & -> & Hl1 & Hl1' & Hv1). simpl.
      assert (Hd1 : dense (with_arrays bestA1 scorA1 g) bestA1 scorA1).
      { apply (dense_with_arrays g bestA scorA); [done |].
        destruct Hd as (_ & _ & _ & Hl). lia. }
      destruct (IH _ _ _ Hd1) as [IHok IHno]. rewrite Hl1 in IHok, IHno. split.
      * intros HF. apply Forall_cons in HF as [_ HF].
        destruct (IHok HF) as (bestA' & scorA' & -> & Hl2 & Hl2' & Hv2).
        exists bestA', scorA'. rewrite with_arrays_twice.
        split; [done |]. split; [lia |]. split; [lia |].
        intros r. rewrite Hv2, Hv1. now destruct (view bestA scorA r).
      * intros HF. apply IHno. intros HF'. apply HF. constructor; [| done].
        eapply lookup_lt_Some, Hb.
    + rewrite H1. simpl. split; [| done].
      intros HF. apply Forall_cons in HF as [HF _].
      apply lookup_ge_None in Hb. lia.
Qed.

(** *** The order of the overlaps *)

Lemma foldl_permutation_compatible {S X : Type} (step : S -> X -> S)
    (compatible : X -> X -> Prop) :
  (forall s x y, compatible x y -> step (step s x) y = step (step s y) x) ->
  forall l1 l2, l1 ≡ₚ l2 ->
  (forall x y, x ∈ l1 -> y ∈ l1 -> compatible x y) ->
  forall s, foldl step s l1 = foldl step s l2.
Proof.
  intros Hswap l1 l2 Hp. induction Hp as [| x l l' Hp IH | x y l | l l' l'' Hp1 IH1 Hp2 IH2];
    intros Hc s.
  - reflexivity.
  - simpl. apply IH. intros a b Ha Hb. apply Hc; now apply list_elem_of_further.
  - simpl. f_equal. apply Hswap, Hc.
    + apply list_elem_of_here.
    + apply list_elem_of_further, list_elem_of_here.
  - rewrite IH1 by done. apply IH2.
    intros a b Ha Hb. apply Hc; now rewrite Hp1.
Qed.

(** The preference of [beats] is a strict order on (score, error code,
    target read), and it decides every pair that differs in one of them. *)
Lemma beats_spec s1 e1 s2 e2 :
  BestOverlapGraph.beats s1 e1 s2 e2 = true <->
  s2 < s1
  \/ (s1 = s2
      /\ (BestEdgeOverlap.evalue e1 < BestEdgeOverlap.evalue e2
          \/ (BestEdgeOverlap.evalue e1 = BestEdgeOverlap.evalue e2
              /\ BestEdgeOverlap.readId e1 < BestEdgeOverlap.readId e2))).
Proof.
  unfold BestOverlapGraph.beats.
  rewrite !orb_true_iff, !andb_true_iff, !orb_true_iff, !andb_true_iff,
    !N.ltb_lt, !N.eqb_eq.
  tauto.
Qed.

Lemma beats_false s1 e1 s2 e2 :
  BestOverlapGraph.beats s1 e1 s2 e2 = false <->
  ~ (s2 < s1
     \/ (s1 = s2
         /\ (BestEdgeOverlap.evalue e1 < BestEdgeOverlap.evalue e2
             \/ (BestEdgeOverlap.evalue e1 = BestEdgeOverlap.evalue e2
                 /\ BestEdgeOverlap.readId e1 < BestEdgeOverlap.readId e2)))).
Proof. rewrite <- beats_spec. now destruct (BestOverlapGraph.beats s1 e1 s2 e2). Qed.

Lemma set_candidate olap e :
  BestEdgeOverlap.set AS_MAX_READLEN_BITS AS_MAX_EVALUE_BITS BEndIs3prime olap e
  = candidate olap.
Proof. reflexivity. Qed.

Lemma ufield_ufield w x : ufield w (ufield w x) = ufield w x.
Proof. unfold ufield. apply N.Div0.mod_mod. Qed.

(** One slot: the retained score and edge of one end of one read, and a
    candidate scored against it. *)
Lemma slot_commute (sx sy s : N) (cx cy e : BestEdgeOverlap.t) :
  (sx = sy -> BestEdgeOverlap.evalue cx = BestEdgeOverlap.evalue cy ->
   BestEdgeOverlap.readId cx = BestEdgeOverlap.readId cy -> cx = cy) ->
  (let '(s1, e1) := if BestOverlapGraph.beats sx cx s e then (sx, cx) else (s, e) in
   if BestOverlapGraph.beats sy cy s1 e1 then (sy, cy) else (s1, e1))
  = (let '(s1, e1) := if BestOverlapGraph.beats sy cy s e then (sy, cy) else (s, e) in
     if BestOverlapGraph.beats sx cx s1 e1 then (sx, cx) else (s1, e1)).
Proof.
  intros Htie.
  destruct (BestOverlapGraph.beats sx cx s e) eqn:Hx;
    destruct (BestOverlapGraph.beats sy cy s e) eqn:Hy; rewrite ?Hx, ?Hy;
    try reflexivity.
  - destruct (BestOverlapGraph.beats sy cy sx cx) eqn:Hyx;
      destruct (BestOverlapGraph.beats sx cx sy cy) eqn:Hxy; try reflexivity.
    + apply beats_spec in Hyx, Hxy. lia.
    + apply beats_false in Hyx, Hxy.
      assert (sx = sy) by lia.
      assert (BestEdgeOverlap.evalue cx = BestEdgeOverlap.evalue cy) by lia.
      assert (BestEdgeOverlap.readId cx = BestEdgeOverlap.readId cy) by lia.
      now rewrite (Htie ltac:(done) ltac:(done) ltac:(done)), H.
  - destruct (BestOverlapGraph.beats sy cy sx cx) eqn:Hyx; [| reflexivity].
    apply beats_spec in Hx, Hyx. apply beats_false in Hy. lia.
  - destruct (BestOverlapGraph.beats sx cx sy cy) eqn:Hxy; [| reflexivity].
    apply beats_spec in Hy, Hxy. apply beats_false in Hx. lia.
Qed.

(** Two overlaps scored for the same read commute, provided they do not
    tie where they compete for the same end. *)
Lemma localStep_commute x y p :
  tieFree x y ->
  (BestEdgeOverlap.isContainment x = false -> BestEdgeOverlap.isContainment y = false ->
   BAToverlap.a_iid x = BAToverlap.a_iid y) ->
  localStep y (localStep x p) = localStep x (localStep y p).
Proof.
  intros Htie Hsame. unfold BestOverlapGraph.localStep.
  destruct p as [[b5 b3 c] [s5 s3 ci]].
  destruct (BestEdgeOverlap.isContainment x) eqn:Hcx;
    destruct (BestEdgeOverlap.isContainment y) eqn:Hcy.
  - reflexivity.
  - destruct (BestOverlapGraph.AEndIs3prime y); cbn;
      destruct (BestOverlapGraph.beats _ _ _ _); reflexivity.
  - destruct (BestOverlapGraph.AEndIs3prime x); cbn;
      destruct (BestOverlapGraph.beats _ _ _ _); reflexivity.
  - specialize (Hsame eq_refl eq_refl).
    unfold BestOverlapGraph.tieFree in Htie.
    specialize (Htie Hcx Hcy Hsame).
    rewrite !set_candidate.
    change (BestEdgeOverlap.of_overlap AS_MAX_READLEN_BITS AS_MAX_EVALUE_BITS BEndIs3prime
              x BestEdgeOverlap.zeroed) with (candidate x).
    change (BestEdgeOverlap.of_overlap AS_MAX_READLEN_BITS AS_MAX_EVALUE_BITS BEndIs3prime
              y BestEdgeOverlap.zeroed) with (candidate y).
    set (sx := ufield 64 (scoreOverlap x)) in *.
    set (sy := ufield 64 (scoreOverlap y)) in *.
    set (cx := candidate x) in *. set (cy := candidate y) in *.
    assert (Hux : ufield 64 sx = sx) by apply ufield_ufield.
    assert (Huy : ufield 64 sy = sy) by apply ufield_ufield.
    destruct (BestOverlapGraph.AEndIs3prime x) eqn:Hex;
      destruct (BestOverlapGraph.AEndIs3prime y) eqn:Hey; cbn.
    + specialize (Htie eq_refl).
      pose proof (slot_commute sx sy s3 cx cy b3 Htie) as Hs.
      destruct (BestOverlapGraph.beats sx cx s3 b3) eqn:Hx;
        destruct (BestOverlapGraph.beats sy cy s3 b3) eqn:Hy; cbn;
        rewrite ?set_candidate, ?Hux, ?Huy, ?Hx, ?Hy in *;
        change (candidate x) with cx; change (candidate y) with cy;
        try reflexivity;
        repeat (destruct (BestOverlapGraph.beats _ _ _ _); cbn;
                rewrite ?set_candidate, ?Hux, ?Huy);
        change (candidate x) with cx; change (candidate y) with cy;
        congruence.
    + destruct (BestOverlapGraph.beats sx cx s3 b3) eqn:Hx;
        destruct (BestOverlapGraph.beats sy cy s5 b5) eqn:Hy; cbn; rewrite ?Hx, ?Hy;
        reflexivity.
    + destruct (BestOverlapGraph.beats sx cx s5 b5) eqn:Hx;
        destruct (BestOverlapGraph.beats sy cy s3 b3) eqn:Hy; cbn; rewrite ?Hx, ?Hy;
        reflexivity.
    + specialize (Htie eq_refl).
      pose proof (slot_commute sx sy s5 cx cy b5 Htie) as Hs.
      destruct (BestOverlapGraph.beats sx cx s5 b5) eqn:Hx;
        destruct (BestOverlapGraph.beats sy cy s5 b5) eqn:Hy; cbn;
        rewrite ?set_candidate, ?Hux, ?Huy, ?Hx, ?Hy in *;
        change (candidate x) with cx; change (candidate y) with cy;
        try reflexivity;
        repeat (destruct (BestOverlapGraph.beats _ _ _ _); cbn;
                rewrite ?set_candidate, ?Hux, ?Huy);
        change (candidate x) with cx; change (candidate y) with cy;
        congruence.
Qed.

Lemma stepAt_commute r p x y :
  tieFree x y -> stepAt r (stepAt r p x) y = stepAt r (stepAt r p y) x.
Proof.
  intros Htie. unfold BestOverlapGraph.stepAt.
  destruct (decide (N.to_nat (scoredRead x) = r)) as [Hx |];
    destruct (decide (N.to_nat (scoredRead y) = r)) as [Hy |]; try reflexivity.
  apply localStep_commute; [exact Htie |].
  intros Hcx Hcy. unfold BestOverlapGraph.scoredRead in Hx, Hy.
  rewrite Hcx in Hx. rewrite Hcy in Hy. apply N2Nat.inj. congruence.
Qed.

Lemma findEdges_permutation g bestA scorA (l1 l2 : list BAToverlap.t) :
  dense g bestA scorA ->
  l1 ≡ₚ l2 ->
  (forall x y, x ∈ l1 -> y ∈ l1 -> tieFree x y) ->
  findEdges g l1 = findEdges g l2.
Proof.
  intros Hd Hp Htie.
  destruct (findEdges_arrays l1 g bestA scorA Hd) as [Hok1 Hno1].
  destruct (findEdges_arrays l2 g bestA scorA Hd) as [Hok2 Hno2].
  destruct (decide (Forall (fun o => (N.to_nat (scoredRead o) < length bestA)%nat) l1))
    as [HF | HF].
  - destruct (Hok1 HF) as (bestA1 & scorA1 & -> & Hl1 & Hl1' & Hv1).
    rewrite Hp in HF.
    destruct (Hok2 HF) as (bestA2 & scorA2 & -> & Hl2 & Hl2' & Hv2).
    destruct Hd as (_ & _ & _ & Hl).
    destruct (view_ext bestA1 scorA1 bestA2 scorA2) as [-> ->]; try lia; [| done].
    intros r. rewrite Hv1, Hv2. destruct (view bestA scorA r) as [p |]; [| done].
    simpl. f_equal.
    apply (foldl_permutation_compatible (stepAt r) tieFree); [| done | done].
    intros s x y Hxy. now apply stepAt_commute.
  - rewrite (Hno1 HF). symmetry. apply Hno2. now rewrite <- Hp.
Qed.

(** *** The filter passes, entry by entry *)

Local Abbreviation clearingEntry :=
  (BestOverlapGraph.clearingEntry double AS_OVS_decodeEvalue exceeds
     inconsistentWithContainment lopsided clearSpurEdges eitherTestClears).
Local Abbreviation filterPasses :=
  (BestOverlapGraph.filterPasses double AS_OVS_decodeEvalue exceeds
     inconsistentWithContainment lopsided clearSpurEdges eitherTestClears).
Local Abbreviation isNoEdge := BestOverlapGraph.isNoEdge.
Local Abbreviation retained := BestOverlapGraph.retained.
Local Abbreviation flagged := BestOverlapGraph.flagged.
Local Abbreviation isSpur := BestOverlapGraph.isSpur.
Local Abbreviation isInconsistent := BestOverlapGraph.isInconsistent.

Local Abbreviation scoresOf := (BestOverlapGraph.scoresOf double).
Local Abbreviation same_rest := (BestOverlapGraph.same_rest double).

Lemma isNoEdge_true e : isNoEdge e = true <-> e = BestEdgeOverlap.clear e.
Proof.
  unfold BestOverlapGraph.isNoEdge, BestEdgeOverlap.clear.
  destruct e as [id e3p ah bh ev]. simpl.
  rewrite !andb_true_iff, negb_true_iff, !N.eqb_eq, !Z.eqb_eq.
  split.
  - intros ((((-> & ->) & ->) & ->) & ->). reflexivity.
  - intros [= -> -> -> -> ->]. done.
Qed.

Lemma retained_clear e : retained (BestEdgeOverlap.clear e) = false.
Proof. reflexivity. Qed.

Lemma filterPasses_sparse fS fH fL fSp g :
  BestOverlapGraph._bestA g = None -> filterPasses fS fH fL fSp g = g.
Proof.
  intros H. unfold BestOverlapGraph.filterPasses, BestOverlapGraph.removeHighErrorBestEdges,
    BestOverlapGraph.removeContainedDovetails, BestOverlapGraph.removeLopsidedEdges,
    BestOverlapGraph.removeSpurs, BestOverlapGraph.removeSuspicious.
  destruct fS, fH, fL, fSp; now rewrite ?H.
Qed.

(** The passes on a graph over the array: every entry goes through the
    composite of the clearing passes, with the read's own scores; the spur
    pass records the reads that are spurs as it finds them, the suspicious
    pass the reads that are inconsistent once the edges are final. *)
Lemma filterPasses_arrays fS fH fL fSp g bestA :
  BestOverlapGraph._bestA g = Some bestA ->
  BestOverlapGraph._bestA (filterPasses fS fH fL fSp g)
  = Some (imap (fun r =>
                  clearingEntry fH fL fSp (BestOverlapGraph._errorLimit double g)
                    (BestOverlapGraph._erateGraph double g) (scoresOf g r)) bestA)
  /\ same_rest g (filterPasses fS fH fL fSp g)
  /\ BestOverlapGraph._spur (filterPasses fS fH fL fSp g)
     = (if fSp
        then BestOverlapGraph._spur g
             ∪ flagged (fun _ => isSpur)
                 (imap (fun r =>
                          clearingEntry fH fL false (BestOverlapGraph._errorLimit double g)
                            (BestOverlapGraph._erateGraph double g) (scoresOf g r)) bestA)
        else BestOverlapGraph._spur g)
  /\ BestOverlapGraph._suspicious (filterPasses fS fH fL fSp g)
     = (if fS
        then BestOverlapGraph._suspicious g
             ∪ flagged
                 (isInconsistent
                    (imap (fun r =>
                             clearingEntry fH fL fSp (BestOverlapGraph._errorLimit double g)
                               (BestOverlapGraph._erateGraph double g) (scoresOf g r)) bestA))
                 (imap (fun r =>
                          clearingEntry fH fL fSp (BestOverlapGraph._errorLimit double g)
                            (BestOverlapGraph._erateGraph double g) (scoresOf g r)) bestA)
        else BestOverlapGraph._suspicious g).
Proof.
  intros Ha.
  destruct g as [? scorA m sd md mad ns n1 n2 i1 i2 sus sing spur bestM scorM rs re eg dg el].
  simpl in Ha. subst. unfold BestOverlapGraph.scoresOf, BestOverlapGraph.same_rest. cbn [BestOverlapGraph._scorA
    BestOverlapGraph._errorLimit BestOverlapGraph._erateGraph BestOverlapGraph._spur
    BestOverlapGraph._suspicious].
  assert (Hmap : forall (f : BestOverlaps.t -> BestOverlaps.t) (l : list BestOverlaps.t),
             f <$> l = imap (fun _ => f) l).
  { intros f l. apply list_eq. intros i.
    now rewrite list_lookup_fmap, list_lookup_imap. }
  assert (Hcomp : forall (f h : nat -> BestOverlaps.t -> BestOverlaps.t)
                         (l : list BestOverlaps.t),
             imap f (imap h l) = imap (fun i bo => f i (h i bo)) l).
  { intros f h l. apply list_eq. intros i. rewrite !list_lookup_imap.
    now destruct (l !! i). }
  unfold BestOverlapGraph.filterPasses, BestOverlapGraph.removeHighErrorBestEdges,
    BestOverlapGraph.removeContainedDovetails, BestOverlapGraph.removeLopsidedEdges,
    BestOverlapGraph.removeSpurs, BestOverlapGraph.removeSuspicious,
    BestOverlapGraph.clearingEntry, BestOverlapGraph.lopsidedAt.
  destruct fS, fH, fL, fSp, scorA as [scorA |];
    cbn -[imap fmap flagged union];
    repeat (rewrite Hmap || rewrite Hcomp); repeat split; reflexivity.
Qed.

Local Abbreviation isHighError :=
  (BestOverlapGraph.isHighError double AS_OVS_decodeEvalue exceeds eitherTestClears).
Local Abbreviation clearIf := BestOverlapGraph.clearIf.
Local Abbreviation spurEntry := (BestOverlapGraph.spurEntry clearSpurEdges).

Local Abbreviation lopsidedKills := (BestOverlapGraph.lopsidedKills lopsided).
Local Abbreviation slotPasses :=
  (BestOverlapGraph.slotPasses double AS_OVS_decodeEvalue exceeds inconsistentWithContainment
     lopsided eitherTestClears).

Lemma clearIf_clear b e : clearIf b (BestEdgeOverlap.clear e) = BestEdgeOverlap.clear e.
Proof. now destruct b. Qed.

Lemma clearingEntry_slots fH fL limit cutoff osc bo :
  clearingEntry fH fL false limit cutoff osc bo
  = {| BestOverlaps._best5 :=
         slotPasses fH fL limit cutoff osc (BestOverlaps._isC bo) false (BestOverlaps._best5 bo);
       BestOverlaps._best3 :=
         slotPasses fH fL limit cutoff osc (BestOverlaps._isC bo) true (BestOverlaps._best3 bo);
       BestOverlaps._isC := BestOverlaps._isC bo |}.
Proof.
  destruct bo as [e5 e3 c]. unfold BestOverlapGraph.clearingEntry, BestOverlapGraph.slotPasses,
    BestOverlapGraph.lopsidedKills,
    BestOverlapGraph.highErrorEntry, BestOverlapGraph.containedEntry,
    BestOverlapGraph.lopsidedEntry.
  destruct fH, fL, osc as [[s5 s3 ci] |]; cbn;
    destruct (c =? 0); cbn;
    try (destruct (lopsided s5 s3); cbn; try reflexivity;
         destruct (s5 <? s3); cbn; try reflexivity;
         destruct (s3 <? s5); cbn); reflexivity.
Qed.

Lemma clearingEntry_spur fH fL fSp limit cutoff osc bo :
  clearingEntry fH fL fSp limit cutoff osc bo
  = if fSp
    then spurEntry (clearingEntry fH fL false limit cutoff osc bo)
    else clearingEntry fH fL false limit cutoff osc bo.
Proof. now destruct fSp. Qed.

(** A slot comes out of the passes as it went in, or cleared; cleared when
    the high-error pass ran and found its rate too high. *)
Lemma slotPasses_cases fH fL limit cutoff osc c tp e :
  slotPasses fH fL limit cutoff osc c tp e = BestEdgeOverlap.clear e
  \/ (slotPasses fH fL limit cutoff osc c tp e = e
      /\ (fH = true -> isHighError limit cutoff e = false)).
Proof.
  unfold BestOverlapGraph.slotPasses.
  destruct (fH && isHighError limit cutoff e) eqn:H1; cbn.
  - left. now rewrite !clearIf_clear.
  - destruct (negb (c =? 0) && inconsistentWithContainment e); cbn.
    + left. now rewrite !clearIf_clear.
    + destruct (fL && lopsidedKills osc tp); cbn; [now left |].
      right. split; [done |]. intros ->. exact H1.
Qed.

Lemma slotPasses_clear fH fL limit cutoff osc c tp e :
  slotPasses fH fL limit cutoff osc c tp (BestEdgeOverlap.clear e) = BestEdgeOverlap.clear e.
Proof. unfold BestOverlapGraph.slotPasses. now rewrite !clearIf_clear. Qed.

Lemma slotPasses_idempotent fH fL limit cutoff osc c tp e :
  slotPasses fH fL limit cutoff osc c tp (slotPasses fH fL limit cutoff osc c tp e)
  = slotPasses fH fL limit cutoff osc c tp e.
Proof.
  unfold BestOverlapGraph.slotPasses.
  destruct (fH && isHighError limit cutoff e) eqn:H1; cbn.
  - now rewrite !clearIf_clear.
  - destruct (negb (c =? 0) && inconsistentWithContainment e) eqn:H2; cbn.
    + now rewrite !clearIf_clear.
    + destruct (fL && lopsidedKills osc tp) eqn:H3; cbn.
      * now rewrite !clearIf_clear.
      * rewrite H1. cbn. rewrite H2. cbn. now rewrite ?H3.
Qed.

Lemma spurEntry_cases bo :
  (spurEntry bo = bo /\ (clearSpurEdges = true -> isSpur bo = false))
  \/ (isSpur bo = true
      /\ spurEntry bo
         = {| BestOverlaps._best5 := BestEdgeOverlap.clear (BestOverlaps._best5 bo);
              BestOverlaps._best3 := BestEdgeOverlap.clear (BestOverlaps._best3 bo);
              BestOverlaps._isC := BestOverlaps._isC bo |}).
Proof.
  unfold BestOverlapGraph.spurEntry. destruct (isSpur bo) eqn:Hs; cbn.
  - destruct clearSpurEdges; cbn; [now right | left; split; [done | discriminate]].
  - left. split; [done | done].
Qed.

(** The composite of the clearing passes settles every entry in one
    application. *)
Lemma clearingEntry_idempotent fH fL fSp limit cutoff osc bo :
  clearingEntry fH fL fSp limit cutoff osc (clearingEntry fH fL fSp limit cutoff osc bo)
  = clearingEntry fH fL fSp limit cutoff osc bo.
Proof.
  rewrite !(clearingEntry_spur fH fL fSp).
  assert (Hi : forall b, clearingEntry fH fL false limit cutoff osc
                           (clearingEntry fH fL false limit cutoff osc b)
                         = clearingEntry fH fL false limit cutoff osc b).
  { intros b. rewrite !clearingEntry_slots. cbn. now rewrite !slotPasses_idempotent. }
  destruct fSp; [| apply Hi].
  destruct (spurEntry_cases (clearingEntry fH fL false limit cutoff osc bo))
    as [[He _] | [_ He]]; rewrite He.
  - now rewrite Hi, He.
  - rewrite clearingEntry_slots. cbn. now rewrite !slotPasses_clear.
Qed.

(** No clearing pass adds an edge or touches the containment flag. *)
Lemma clearingEntry_never_adds fH fL fSp limit cutoff osc bo tp :
  BestOverlaps._isC (clearingEntry fH fL fSp limit cutoff osc bo) = BestOverlaps._isC bo
  /\ (BestOverlaps.end_of tp (clearingEntry fH fL fSp limit cutoff osc bo)
      = BestEdgeOverlap.clear (BestOverlaps.end_of tp bo)
      \/ (BestOverlaps.end_of tp (clearingEntry fH fL fSp limit cutoff osc bo)
          = BestOverlaps.end_of tp bo
          /\ (fH = true -> isHighError limit cutoff (BestOverlaps.end_of tp bo) = false))).
Proof.
  rewrite (clearingEntry_spur fH fL fSp), clearingEntry_slots.
  assert (Hslot : forall b : BestOverlaps.t,
             BestOverlaps.end_of tp
               {| BestOverlaps._best5 :=
                    slotPasses fH fL limit cutoff osc (BestOverlaps._isC b) false
                      (BestOverlaps._best5 b);
                  BestOverlaps._best3 :=
                    slotPasses fH fL limit cutoff osc (BestOverlaps._isC b) true
                      (BestOverlaps._best3 b);
                  BestOverlaps._isC := BestOverlaps._isC b |}
             = slotPasses fH fL limit cutoff osc (BestOverlaps._isC b) tp
                 (BestOverlaps.end_of tp b)) by (intros b; now destruct tp).
  pose proof (slotPasses_cases fH fL limit cutoff osc (BestOverlaps._isC bo) tp
                (BestOverlaps.end_of tp bo)) as Hc.
  destruct fSp.
  - destruct (spurEntry_cases
                {| BestOverlaps._best5 :=
                     slotPasses fH fL limit cutoff osc (BestOverlaps._isC bo) false
                       (BestOverlaps._best5 bo);
                   BestOverlaps._best3 :=
                     slotPasses fH fL limit cutoff osc (BestOverlaps._isC bo) true
                       (BestOverlaps._best3 bo);
                   BestOverlaps._isC := BestOverlaps._isC bo |}) as [[-> _] | [_ ->]].
    + split; [reflexivity |]. rewrite Hslot. exact Hc.
    + split; [reflexivity |]. left. now destruct tp.
  - split; [reflexivity |]. rewrite Hslot. exact Hc.
Qed.

Lemma clearingEntry_value_init fH fL fSp limit cutoff osc :
  clearingEntry fH fL fSp limit cutoff osc BestOverlaps.value_init = BestOverlaps.value_init.
Proof.
  rewrite (clearingEntry_spur fH fL fSp), clearingEntry_slots.
  change (BestOverlaps._best5 BestOverlaps.value_init)
    with (BestEdgeOverlap.clear BestEdgeOverlap.zeroed).
  change (BestOverlaps._best3 BestOverlaps.value_init)
    with (BestEdgeOverlap.clear BestEdgeOverlap.zeroed).
  rewrite !slotPasses_clear. now destruct fSp, clearSpurEdges.
Qed.

Lemma elem_of_flagged (p : nat -> BestOverlaps.t -> bool) bestA (x : N) :
  x ∈ flagged p bestA <->
  exists i bo, bestA !! i = Some bo /\ p i bo = true /\ x = N.of_nat i.
Proof.
  unfold BestOverlapGraph.flagged. rewrite elem_of_list_to_set, list_elem_of_omap.
  split.
  - intros (o & Ho & Hid). simpl in Hid. subst o.
    apply elem_of_lookup_imap in Ho as (i & bo & Hx & Hb).
    exists i, bo. split; [exact Hb |]. destruct (p i bo); [| discriminate].
    split; [done |]. congruence.
  - intros (i & bo & Hb & Hp & ->). exists (Some (N.of_nat i)). split; [| done].
    apply elem_of_lookup_imap. exists i, bo. now rewrite Hp.
Qed.

Lemma scoresOf_same_rest g g' r : same_rest g g' -> scoresOf g' r = scoresOf g r.
Proof. intros (Hs & _). unfold BestOverlapGraph.scoresOf. now rewrite Hs. Qed.

Lemma imap_idempotent (f : nat -> BestOverlaps.t -> BestOverlaps.t) bestA :
  (forall i bo, f i (f i bo) = f i bo) -> imap f (imap f bestA) = imap f bestA.
Proof.
  intros Hf. apply list_eq. intros i. rewrite !list_lookup_imap.
  destruct (bestA !! i); simpl; [| done]. now rewrite Hf.
Qed.

Lemma highErrorEntry_idempotent limit cutoff bo :
  BestOverlapGraph.highErrorEntry double AS_OVS_decodeEvalue exceeds eitherTestClears
      limit cutoff
    (BestOverlapGraph.highErrorEntry double AS_OVS_decodeEvalue exceeds eitherTestClears
      limit cutoff bo)
  = BestOverlapGraph.highErrorEntry double AS_OVS_decodeEvalue exceeds eitherTestClears
      limit cutoff bo.
Proof.
  destruct bo as [e5 e3 c]. unfold BestOverlapGraph.highErrorEntry. cbn. f_equal.
  - destruct (isHighError limit cutoff e5) eqn:H; cbn; [apply clearIf_clear | now rewrite H].
  - destruct (isHighError limit cutoff e3) eqn:H; cbn; [apply clearIf_clear | now rewrite H].
Qed.

Lemma removeHighErrorBestEdges_idempotent g :
  BestOverlapGraph._bestA
    (BestOverlapGraph.removeHighErrorBestEdges double AS_OVS_decodeEvalue exceeds
            eitherTestClears
       (BestOverlapGraph.removeHighErrorBestEdges double AS_OVS_decodeEvalue exceeds
            eitherTestClears g))
  = BestOverlapGraph._bestA
      (BestOverlapGraph.removeHighErrorBestEdges double AS_OVS_decodeEvalue exceeds
            eitherTestClears g).
Proof.
  destruct g as [bestA scorA m sd md mad ns n1 n2 i1 i2 sus sing spur bestM scorM rs re eg dg el].
  destruct bestA as [bestA |]; [| reflexivity].
  unfold BestOverlapGraph.removeHighErrorBestEdges. cbn -[fmap]. f_equal.
  rewrite <- list_fmap_compose. apply list_fmap_ext. intros i bo _. cbn.
  apply highErrorEntry_idempotent.
Qed.

(** C7: after one run of the filter passes a second run (same flags)
    changes no best edge and no containment flag, in the array or in the
    keyed mapping, and no flag set; an edge that stands after the passes
    stood before them; and the high-error pass on its own changes no edge
    and no flag when run a second time. *)
Theorem filterPasses_fixed_point fS fH fL fSp g :
  BestOverlapGraph._bestA (filterPasses fS fH fL fSp (filterPasses fS fH fL fSp g))
  = BestOverlapGraph._bestA (filterPasses fS fH fL fSp g)
  /\ BestOverlapGraph._bestM (filterPasses fS fH fL fSp (filterPasses fS fH fL fSp g))
     = BestOverlapGraph._bestM (filterPasses fS fH fL fSp g)
  /\ BestOverlapGraph._suspicious (filterPasses fS fH fL fSp (filterPasses fS fH fL fSp g))
     = BestOverlapGraph._suspicious (filterPasses fS fH fL fSp g)
  /\ BestOverlapGraph._singleton double
       (filterPasses fS fH fL fSp (filterPasses fS fH fL fSp g))
     = BestOverlapGraph._singleton double (filterPasses fS fH fL fSp g)
  /\ BestOverlapGraph._spur (filterPasses fS fH fL fSp (filterPasses fS fH fL fSp g))
     = BestOverlapGraph._spur (filterPasses fS fH fL fSp g)
  /\ (forall readid threePrime edge g',
         BestOverlapGraph.getBestEdgeOverlap (filterPasses fS fH fL fSp g) readid threePrime
         = Some (edge, g') ->
         edge = BestEdgeOverlap.clear edge
         \/ exists g'', BestOverlapGraph.getBestEdgeOverlap g readid threePrime
                        = Some (edge, g''))
  /\ BestOverlapGraph._bestA
       (BestOverlapGraph.removeHighErrorBestEdges double AS_OVS_decodeEvalue exceeds
            eitherTestClears
          (BestOverlapGraph.removeHighErrorBestEdges double AS_OVS_decodeEvalue exceeds
            eitherTestClears g))
     = BestOverlapGraph._bestA
         (BestOverlapGraph.removeHighErrorBestEdges double AS_OVS_decodeEvalue exceeds
            eitherTestClears g).
Proof.
  cut (BestOverlapGraph._bestA (filterPasses fS fH fL fSp (filterPasses fS fH fL fSp g))
       = BestOverlapGraph._bestA (filterPasses fS fH fL fSp g)
       /\ BestOverlapGraph._bestM (filterPasses fS fH fL fSp (filterPasses fS fH fL fSp g))
          = BestOverlapGraph._bestM (filterPasses fS fH fL fSp g)
       /\ BestOverlapGraph._suspicious
            (filterPasses fS fH fL fSp (filterPasses fS fH fL fSp g))
          = BestOverlapGraph._suspicious (filterPasses fS fH fL fSp g)
       /\ BestOverlapGraph._singleton double
            (filterPasses fS fH fL fSp (filterPasses fS fH fL fSp g))
          = BestOverlapGraph._singleton double (filterPasses fS fH fL fSp g)
       /\ BestOverlapGraph._spur (filterPasses fS fH fL fSp (filterPasses fS fH fL fSp g))
          = BestOverlapGraph._spur (filterPasses fS fH fL fSp g)
       /\ (forall readid threePrime edge g',
              BestOverlapGraph.getBestEdgeOverlap (filterPasses fS fH fL fSp g) readid
                threePrime = Some (edge, g') ->
              edge = BestEdgeOverlap.clear edge
              \/ exists g'', BestOverlapGraph.getBestEdgeOverlap g readid threePrime
                             = Some (edge, g''))).
  { intros (H1 & H2 & H3 & H4 & H5 & H6).
    repeat (split; [assumption |]). apply removeHighErrorBestEdges_idempotent. }
  destruct (BestOverlapGraph._bestA g) as [bestA |] eqn:Ha.
  2: { rewrite !(filterPasses_sparse fS fH fL fSp g Ha). repeat split. eauto. }
  destruct (filterPasses_arrays fS fH fL fSp g bestA Ha) as (Ha1 & Hr1 & Hsp1 & Hsu1).
  destruct (filterPasses_arrays fS fH fL fSp _ _ Ha1) as (Ha2 & Hr2 & Hsp2 & Hsu2).
  destruct Hr1 as (Hs1 & Hl1 & Hc1 & Hm1 & Hsi1).
  destruct Hr2 as (Hs2 & Hl2 & Hc2 & Hm2 & Hsi2).
  assert (Hsc : forall r, scoresOf (filterPasses fS fH fL fSp g) r = scoresOf g r)
    by (intros r; unfold BestOverlapGraph.scoresOf; now rewrite Hs1).
  rewrite Hl1, Hc1 in Ha2, Hsp2, Hsu2.
  assert (Hfix : imap (fun r => clearingEntry fH fL fSp (BestOverlapGraph._errorLimit double g)
                                  (BestOverlapGraph._erateGraph double g)
                                  (scoresOf (filterPasses fS fH fL fSp g) r))
                   (imap (fun r => clearingEntry fH fL fSp (BestOverlapGraph._errorLimit double g)
                                     (BestOverlapGraph._erateGraph double g) (scoresOf g r))
                      bestA)
                 = imap (fun r => clearingEntry fH fL fSp (BestOverlapGraph._errorLimit double g)
                                    (BestOverlapGraph._erateGraph double g) (scoresOf g r))
                     bestA).
  { apply list_eq. intros i. rewrite !list_lookup_imap.
    destruct (bestA !! i); simpl; [| done].
    now rewrite Hsc, clearingEntry_idempotent. }
  rewrite Hfix in Ha2, Hsu2.
  split; [now rewrite Ha2, Ha1 |]. split; [now rewrite Hm2 |].
  split; [| split; [now rewrite Hsi2 | split]].
  - rewrite Hsu2, Hsu1. destruct fS; [| done].
    now rewrite <- (assoc_L (∪)), (idemp_L (∪)).
  - rewrite Hsp2, Hsp1. destruct fSp; [| done].
    assert (Hsub : flagged (fun _ => isSpur)
                     (imap (fun r => clearingEntry fH fL false
                                       (BestOverlapGraph._errorLimit double g)
                                       (BestOverlapGraph._erateGraph double g)
                                       (scoresOf (filterPasses fS fH fL true g) r))
                        (imap (fun r => clearingEntry fH fL true
                                          (BestOverlapGraph._errorLimit double g)
                                          (BestOverlapGraph._erateGraph double g)
                                          (scoresOf g r)) bestA))
                   ⊆ flagged (fun _ => isSpur)
                       (imap (fun r => clearingEntry fH fL false
                                         (BestOverlapGraph._errorLimit double g)
                                         (BestOverlapGraph._erateGraph double g)
                                         (scoresOf g r)) bestA)).
    { intros x. rewrite !elem_of_flagged. intros (i & bo' & Hb' & Hp & ->).
      apply list_lookup_imap_Some in Hb' as (b1 & Hb1 & ->).
      apply list_lookup_imap_Some in Hb1 as (bo & Hb & ->).
      rewrite Hsc in Hp.
      exists i, (clearingEntry fH fL false (BestOverlapGraph._errorLimit double g)
                   (BestOverlapGraph._erateGraph double g) (scoresOf g i) bo).
      split; [now rewrite list_lookup_imap, Hb |]. split; [| done].
      rewrite (clearingEntry_spur fH fL true) in Hp.
      destruct (spurEntry_cases
                  (clearingEntry fH fL false (BestOverlapGraph._errorLimit double g)
                     (BestOverlapGraph._erateGraph double g) (scoresOf g i) bo))
        as [[He _] | [_ He]]; rewrite He in Hp.
      - now rewrite (clearingEntry_idempotent fH fL false) in Hp.
      - rewrite clearingEntry_slots in Hp. cbn in Hp.
        rewrite !slotPasses_clear in Hp. discriminate. }
    rewrite <- (assoc_L (∪)). f_equal. rewrite (comm_L (∪)).
    now apply subseteq_union_1_L.
  - intros readid tp edge g' Hq.
    apply getBestEdgeOverlap_Some in Hq as (bo' & Hq & ->).
    unfold BestOverlapGraph.best_at in Hq. rewrite Ha1 in Hq.
    destruct (imap _ bestA !! N.to_nat readid) as [b1 |] eqn:Hb1; [| discriminate].
    injection Hq as <- <-.
    apply list_lookup_imap_Some in Hb1 as (bo & Hb & ->).
    destruct (clearingEntry_never_adds fH fL fSp (BestOverlapGraph._errorLimit double g)
                (BestOverlapGraph._erateGraph double g) (scoresOf g (N.to_nat readid)) bo tp)
      as (_ & [-> | [-> _]]).
    + now left.
    + right. exists g. unfold BestOverlapGraph.getBestEdgeOverlap, BestOverlapGraph.best_at.
      now rewrite Ha, Hb.
Qed.

(** *** The constructed graph *)

Local Abbreviation allocate :=
  (BestOverlapGraph.allocate double numReads edgeStatistics errorCeiling).
Local Abbreviation computeStatistics :=
  (BestOverlapGraph.computeStatistics double AS_OVS_decodeEvalue edgeStatistics errorCeiling).
Local Abbreviation construct :=
  (BestOverlapGraph.construct double AS_OVS_decodeEvalue exceeds AS_MAX_READLEN_BITS
     AS_MAX_EVALUE_BITS BEndIs3prime numReads scoreOverlap edgeStatistics errorCeiling
     inconsistentWithContainment lopsided clearSpurEdges eitherTestClears).
Local Abbreviation erate := (BestEdgeOverlap_erate AS_OVS_decodeEvalue).

Lemma allocate_dense eg dg :
  dense (allocate eg dg)
    (replicate (N.to_nat numReads + 1) BestOverlaps.value_init)
    (replicate (N.to_nat numReads + 1) BestScores.new).
Proof. repeat split. now rewrite !length_replicate. Qed.

Lemma view_replicate n r :
  (r < n)%nat ->
  view (replicate n BestOverlaps.value_init) (replicate n BestScores.new) r
  = Some (BestOverlaps.value_init, BestScores.new).
Proof. intros H. unfold view. now rewrite !lookup_replicate_2. Qed.

Lemma view_fst bestA scorA r p :
  view bestA scorA r = Some p -> bestA !! r = Some p.1.
Proof.
  unfold view. destruct (bestA !! r); [| done]. simpl.
  destruct (scorA !! r); [| done]. now intros [= <-].
Qed.

(** What a finished construction is made of: the scoring pass ran through
    and left arrays [bestA], [scorA]; the statistics pass wrote statistics
    only; the filter passes ran on the result. *)
Lemma construct_Some eg dg fS fH fL fSp overlaps g :
  construct eg dg fS fH fL fSp overlaps = Some g ->
  exists bestA scorA g2,
    length bestA = (N.to_nat numReads + 1)%nat
    /\ (forall r, (r < N.to_nat numReads + 1)%nat ->
                  view bestA scorA r
                  = Some (foldl (stepAt r) (BestOverlaps.value_init, BestScores.new) overlaps))
    /\ g = filterPasses fS fH fL fSp g2
    /\ BestOverlapGraph._bestA g2 = Some bestA
    /\ BestOverlapGraph._scorA g2 = Some scorA
    /\ BestOverlapGraph._erateGraph double g2 = eg
    /\ BestOverlapGraph._suspicious g2 = ∅.
Proof.
  unfold BestOverlapGraph.construct.
  destruct (findEdges_arrays overlaps _ _ _ (allocate_dense eg dg)) as [Hok Hno].
  destruct (decide (Forall (fun o => (N.to_nat (scoredRead o)
                                      < length (replicate (N.to_nat numReads + 1)
                                                  BestOverlaps.value_init))%nat) overlaps))
    as [HF | HF].
  - destruct (Hok HF) as (bestA & scorA & -> & Hl & Hl' & Hv). simpl.
    intros [= <-]. rewrite length_replicate in Hl.
    exists bestA, scorA, (computeStatistics (with_arrays bestA scorA (allocate eg dg))).
    split; [exact Hl |]. split; [| repeat split].
    intros r Hr. now rewrite Hv, view_replicate.
  - now rewrite (Hno HF).
Qed.

Lemma construct_entry eg dg fS fH fL fSp overlaps g :
  construct eg dg fS fH fL fSp overlaps = Some g ->
  exists limit so,
    (forall r, (r < N.to_nat numReads + 1)%nat ->
       BestOverlapGraph.best_at g (N.of_nat r)
       = Some (clearingEntry fH fL fSp limit eg (so r)
                 (foldl (stepAt r) (BestOverlaps.value_init, BestScores.new) overlaps).1, g))
    /\ (forall readid bo g',
          BestOverlapGraph.best_at g readid = Some (bo, g') ->
          (N.to_nat readid < N.to_nat numReads + 1)%nat)
    /\ (forall x, x ∈ BestOverlapGraph._suspicious g ->
          exists bo, BestOverlapGraph.best_at g x = Some (bo, g)
                     /\ (retained (BestOverlaps._best5 bo) = true
                         \/ retained (BestOverlaps._best3 bo) = true)).
Proof.
  intros Hc. apply construct_Some in Hc
    as (bestA & scorA & g2 & Hl & Hv & -> & Ha2 & Hs2 & He2 & Hsu2).
  destruct (filterPasses_arrays fS fH fL fSp g2 bestA Ha2) as (Ha & _ & _ & Hsu).
  exists (BestOverlapGraph._errorLimit double g2), (scoresOf g2).
  assert (Hat : forall readid,
             BestOverlapGraph.best_at (filterPasses fS fH fL fSp g2) readid
             = match imap (fun r => clearingEntry fH fL fSp (BestOverlapGraph._errorLimit double g2)
                                      (BestOverlapGraph._erateGraph double g2) (scoresOf g2 r))
                       bestA !! N.to_nat readid with
               | Some bo => Some (bo, filterPasses fS fH fL fSp g2)
               | None => None
               end)
    by (intros readid; unfold BestOverlapGraph.best_at; now rewrite Ha).
  split; [| split].
  - intros r Hr. rewrite Hat, Nat2N.id, list_lookup_imap.
    rewrite (view_fst _ _ _ _ (Hv r Hr)). simpl. now rewrite He2.
  - intros readid bo g' Hb. rewrite Hat in Hb.
    destruct (imap _ bestA !! N.to_nat readid) eqn:E; [| discriminate].
    apply lookup_lt_Some in E. rewrite length_imap in E. lia.
  - intros x Hx. rewrite Hsu, Hsu2 in Hx. destruct fS; [| set_solver].
    apply elem_of_union in Hx as [Hx | Hx]; [set_solver |].
    apply elem_of_flagged in Hx as (i & bo & Hb & Hp & ->).
    exists bo. rewrite Hat, Nat2N.id, Hb. split; [done |].
    unfold BestOverlapGraph.isInconsistent in Hp.
    apply orb_true_iff in Hp as [Hp | Hp]; apply andb_true_iff in Hp as [Hp _]; auto.
Qed.


Lemma stepAt_other r p olap :
  N.to_nat (BAToverlap.a_iid olap) <> r -> N.to_nat (BAToverlap.b_iid olap) <> r ->
  stepAt r p olap = p.
Proof.
  intros Ha Hb. unfold BestOverlapGraph.stepAt, BestOverlapGraph.scoredRead,
    BestOverlapGraph.containedRead.
  destruct (decide _) as [He |]; [| done]. exfalso.
  destruct (BestEdgeOverlap.isContainment olap); [| done].
  now destruct ((BAToverlap.a_hang olap <=? 0)%Z && (BAToverlap.b_hang olap >=? 0)%Z).
Qed.

Lemma foldl_stepAt_other r p overlaps :
  (forall o, o ∈ overlaps -> BAToverlap.a_iid o <> N.of_nat r /\ BAToverlap.b_iid o <> N.of_nat r) ->
  foldl (stepAt r) p overlaps = p.
Proof.
  induction overlaps as [| o rest IH]; intros H; [done |]. simpl.
  destruct (H o (list_elem_of_here _ _)) as [Ha Hb].
  rewrite stepAt_other by lia. apply IH. intros o' Ho'. apply H. now right.
Qed.

(** C3: the best-edge query returns a record for every read that has
    storage and either end; where no edge is retained (the slot is as
    [clear] leaves it, the keyed mapping has no entry for the read, or the
    slot has just been cleared through the pointer the query hands out) the
    record is the zero edge: read 0, end bit false, hangs 0, error code 0;
    and on a constructed graph a read that no overlap names has the zero
    edge at both ends and is neither contained nor suspicious. *)
Theorem best_edge_query_total :
  (forall g readid threePrime,
      BestOverlapGraph.in_storage g readid ->
      exists edge g', BestOverlapGraph.getBestEdgeOverlap g readid threePrime = Some (edge, g'))
    /\ (forall g readid threePrime edge g' (was : BestEdgeOverlap.t),
         BestOverlapGraph.getBestEdgeOverlap g readid threePrime = Some (edge, g') ->
         (edge = BestEdgeOverlap.clear was
          \/ (BestOverlapGraph._bestA g = None
              /\ BestOverlapGraph._bestM g !! readid = None)
          \/ (exists g0,
                 BestOverlapGraph.upd_best g0 readid
                   (BestOverlaps.upd_end threePrime BestEdgeOverlap.clear) = Some g)) ->
         BestEdgeOverlap.readId edge = 0
         /\ BestEdgeOverlap.read3p edge = false
         /\ BestEdgeOverlap.ahang edge = 0%Z
         /\ BestEdgeOverlap.bhang edge = 0%Z
         /\ BestEdgeOverlap.evalue edge = 0)
  /\ (forall eg dg fS fH fL fSp overlaps g readid,
         construct eg dg fS fH fL fSp overlaps = Some g ->
         readid <= numReads ->
         (forall o, o ∈ overlaps -> BAToverlap.a_iid o <> readid /\ BAToverlap.b_iid o <> readid) ->
         BestOverlapGraph.getBestEdgeOverlap g readid false
         = Some (BestEdgeOverlap.clear BestEdgeOverlap.zeroed, g)
         /\ BestOverlapGraph.getBestEdgeOverlap g readid true
            = Some (BestEdgeOverlap.clear BestEdgeOverlap.zeroed, g)
         /\ BestOverlapGraph.isContained g readid = Some (false, g)
         /\ BestOverlapGraph.isSuspicious g readid = (false, g)).
Proof.
  split; [| split].
  - intros g readid tp H. destruct (best_at_in_storage g readid H) as (bo & g' & Hb).
    unfold BestOverlapGraph.getBestEdgeOverlap. rewrite Hb. eauto.
  - intros g readid tp edge g' was Hq [-> | [[Ha Hm] | [g0 Hu]]]; [done | |].
    + unfold BestOverlapGraph.getBestEdgeOverlap, BestOverlapGraph.best_at, map_index in Hq.
      rewrite Ha, Hm in Hq. injection Hq as <- _. now destruct tp.
    + destruct (getBestEdgeOverlap_after_clear _ _ _ _ Hu) as (g2 & Hq').
      rewrite Hq' in Hq. now injection Hq as <- _.
  - intros eg dg fS fH fL fSp overlaps g readid Hc Hr Hno.
    destruct (construct_entry _ _ _ _ _ _ _ _ Hc) as (limit & so & Hat & _ & Hsus).
    assert (Hb : BestOverlapGraph.best_at g readid = Some (BestOverlaps.value_init, g)).
    { rewrite <- (N2Nat.id readid). rewrite Hat by lia.
      rewrite foldl_stepAt_other by (now rewrite N2Nat.id).
      now rewrite clearingEntry_value_init. }
    unfold BestOverlapGraph.getBestEdgeOverlap, BestOverlapGraph.isContained,
      BestOverlapGraph.isSuspicious.
    rewrite Hb. repeat split. f_equal. apply bool_decide_eq_false. intros Hx.
    destruct (Hsus _ Hx) as (bo & Hb' & Hret). rewrite Hb in Hb'.
    injection Hb' as <-. now destruct Hret.
Qed.


(** *** Identifiers of the stored edges *)

(** The scoring pass stores the target read of an overlap as it is given,
    and the filter passes only clear: where every overlap names a target
    read within the 31-bit budget of a [ReadEnd], so does every best edge
    of the constructed graph. *)
Lemma foldl_stepAt_budget r overlaps :
  (forall o, o ∈ overlaps -> BAToverlap.b_iid o < 2 ^ 31) ->
  forall p,
    (forall tp, BestEdgeOverlap.readId (BestOverlaps.end_of tp p.1) < 2 ^ 31) ->
    forall tp,
      BestEdgeOverlap.readId (BestOverlaps.end_of tp (foldl (stepAt r) p overlaps).1)
      < 2 ^ 31.
Proof.
  induction overlaps as [| o rest IH]; intros Hb p Hp; [exact Hp |]. simpl.
  apply IH; [intros o' Ho'; apply Hb; now right |].
  assert (Ho : BAToverlap.b_iid o < 2 ^ 31) by (apply Hb; now left).
  unfold BestOverlapGraph.stepAt. destruct (decide _) as [_ |]; [| exact Hp].
  unfold BestOverlapGraph.localStep.
  destruct (BestEdgeOverlap.isContainment o) eqn:Hcont.
  - intros tp. specialize (Hp tp). now destruct tp.
  - destruct (BestOverlapGraph.beats _ _ _ _); [| exact Hp].
    intros tp. specialize (Hp tp).
    assert (Hid : ufield 32 (BAToverlap.b_iid o) < 2 ^ 31).
    { rewrite ufield_small; [exact Ho |].
      apply N.lt_trans with (2 ^ 31); [exact Ho | reflexivity]. }
    destruct tp, (BestOverlapGraph.AEndIs3prime o); cbn; assumption.
Qed.

Lemma construct_edges_in_budget eg dg fS fH fL fSp overlaps g readid threePrime edge g' :
  (forall o, o ∈ overlaps -> BAToverlap.b_iid o < 2 ^ 31) ->
  construct eg dg fS fH fL fSp overlaps = Some g ->
  BestOverlapGraph.getBestEdgeOverlap g readid threePrime = Some (edge, g') ->
  BestEdgeOverlap.readId edge < 2 ^ 31.
Proof.
  intros Hb Hc Hq.
  destruct (construct_entry _ _ _ _ _ _ _ _ Hc) as (limit & so & Hat & Hin & _).
  apply getBestEdgeOverlap_Some in Hq as (bo & Hbo & ->).
  pose proof (Hin _ _ _ Hbo) as Hr. rewrite <- (N2Nat.id readid) in Hbo.
  rewrite (Hat _ Hr) in Hbo. injection Hbo as <- _.
  destruct (clearingEntry_never_adds fH fL fSp limit eg (so (N.to_nat readid))
              (foldl (stepAt (N.to_nat readid))
                 (BestOverlaps.value_init, BestScores.new) overlaps).1 threePrime)
    as (_ & [-> | [-> _]]).
  - reflexivity.
  - apply foldl_stepAt_budget; [exact Hb |]. intros tp. now destruct tp.
Qed.

(** *** The high-error pass and the erateGraph cutoff *)

(** Where either test of the high-error pass clears an edge, no best edge
    of a graph constructed with that pass has a rate above the erateGraph
    cutoff, the rate of error code 0 being within the cutoff. *)
Lemma cutoff_kept_where_either_test_clears
    eg dg fS fL fSp overlaps g readid threePrime edge g' :
  eitherTestClears = true ->
  exceeds (AS_OVS_decodeEvalue 0) eg = false ->
  construct eg dg fS true fL fSp overlaps = Some g ->
  BestOverlapGraph.getBestEdgeOverlap g readid threePrime = Some (edge, g') ->
  exceeds (erate edge) eg = false.
Proof.
  intros Hrd H0 Hc Hq.
  destruct (construct_entry _ _ _ _ _ _ _ _ Hc) as (limit & so & Hat & Hin & _).
  apply getBestEdgeOverlap_Some in Hq as (bo & Hb & ->).
  pose proof (Hin _ _ _ Hb) as Hr. rewrite <- (N2Nat.id readid) in Hb.
  rewrite (Hat _ Hr) in Hb. injection Hb as <- _.
  destruct (clearingEntry_never_adds true fL fSp limit eg (so (N.to_nat readid))
              (foldl (stepAt (N.to_nat readid))
                 (BestOverlaps.value_init, BestScores.new) overlaps).1 threePrime)
    as (_ & [-> | [-> Hh]]).
  - exact H0.
  - specialize (Hh eq_refl). unfold BestOverlapGraph.isHighError in Hh.
    rewrite Hrd in Hh. cbn in Hh. now apply orb_false_iff in Hh as [_ Hh].
Qed.

End Construction.

(** ** The construction on concrete inputs *)


Lemma best_edge_query_total_witness :
  exists g,
    Examples.construct 5 true true true true [Examples.dovetail_1_2; Examples.contain_3_4]
    = Some g
    /\ BestOverlapGraph.getBestEdgeOverlap g 5 false
       = Some (BestEdgeOverlap.clear BestEdgeOverlap.zeroed, g)
    /\ BestOverlapGraph.isContained g 5 = Some (false, g)
    /\ BestOverlapGraph.isSuspicious g 5 = (false, g).
Proof.
  destruct (Examples.construct 5 true true true true
              [Examples.dovetail_1_2; Examples.contain_3_4]) as [g |] eqn:E;
    [| vm_compute in E; discriminate].
  exists g. split; [reflexivity |].
  destruct (proj2 (proj2 (best_edge_query_total Examples.decode Examples.above
                            Examples.readlen_bits Examples.evalue_bits
                            Examples.dovetailsInto3prime 5 Examples.score
                            Examples.statistics Examples.ceiling Examples.consistent
                            Examples.balanced true true))
              5 0 true true true true
              [Examples.dovetail_1_2; Examples.contain_3_4] g 5 E)
    as (H5 & _ & Hc & Hs).
  - discriminate.
  - intros o Ho. apply list_elem_of_In in Ho. simpl in Ho.
    destruct Ho as [<- | [<- | []]]; split; discriminate.
  - split; [exact H5 |]. split; [exact Hc | exact Hs].
Defined.

(** Where both tests of the high-error pass have to hold, an edge whose
    rate is above the erateGraph cutoff and within the derived ceiling
    stays: with the cutoff at 5 and the ceiling at 2^12, the edge of rate
    10 at the 5' end of read 1 is retained with the pass enabled. *)
Lemma cutoff_passed_where_both_tests_are_needed :
  exists g edge,
    BestOverlapGraph.construct N Examples.decode Examples.above Examples.readlen_bits
      Examples.evalue_bits Examples.dovetailsInto3prime 5 Examples.score
      Examples.statistics Examples.ceiling Examples.consistent Examples.balanced true
      false 5 0 false true false false [Examples.dovetail_1_2] = Some g
    /\ BestOverlapGraph.getBestEdgeOverlap g 1 false = Some (edge, g)
    /\ Examples.above (BestEdgeOverlap_erate Examples.decode edge) 5 = true.
Proof.
  eexists _, _.
  split; [vm_compute; reflexivity |].
  split; [vm_compute; reflexivity |].
  reflexivity.
Qed.


Lemma filterPasses_fixed_point_witness :
  BestOverlapGraph._bestA
    (Examples.filterPasses true true true true
       (Examples.filterPasses true true true true Examples.far_graph))
  = BestOverlapGraph._bestA (Examples.filterPasses true true true true Examples.far_graph).
Proof.
  apply (filterPasses_fixed_point Examples.decode Examples.above Examples.consistent
           Examples.balanced true true true true true true Examples.far_graph).
Defined.

(** * Further properties of the header's code *)

(** ** ReadEnd: the comparison operators *)

Lemma ReadEnd_eq_true a b : ReadEnd.eq a b = true <-> a = b.
Proof.
  destruct a as [i e], b as [j f]. unfold ReadEnd.eq, ReadEnd.readId, ReadEnd.read3p.
  cbn. split.
  - intros H. apply andb_true_iff in H as [H1 H2]. apply N.eqb_eq in H1 as ->.
    destruct e, f; cbn in H2; congruence.
  - intros [= -> ->]. rewrite N.eqb_refl. now destruct f.
Qed.

(** X1: [operator==] holds exactly of two ends that agree on both members,
    [operator!=] is its negation, and both are symmetric. *)
Theorem ReadEnd_equality_operators (a b : ReadEnd.t) :
  (ReadEnd.eq a b = true <-> a = b)
  /\ ReadEnd.ne a b = negb (ReadEnd.eq a b)
  /\ ReadEnd.eq a b = ReadEnd.eq b a
  /\ ReadEnd.ne a b = ReadEnd.ne b a.
Proof.
  split; [apply ReadEnd_eq_true |].
  destruct a as [i e], b as [j f].
  unfold ReadEnd.ne, ReadEnd.eq, ReadEnd.readId, ReadEnd.read3p. cbn.
  rewrite (N.eqb_sym j i). repeat split.
  - now rewrite negb_andb.
  - now destruct e, f.
  - now destruct e, f.
Qed.

(** X2: [operator<] is a strict total order on ends: irreflexive,
    asymmetric, transitive, and of two different ends one is below the
    other; the default sentinel is below every other end. *)
Theorem ReadEnd_lt_strict_total_order :
  (forall a, ReadEnd.lt a a = false)
  /\ (forall a b, ReadEnd.lt a b = true -> ReadEnd.lt b a = false)
  /\ (forall a b c, ReadEnd.lt a b = true -> ReadEnd.lt b c = true -> ReadEnd.lt a c = true)
  /\ (forall a b, ReadEnd.lt a b = true \/ a = b \/ ReadEnd.lt b a = true)
  /\ (forall a, ReadEnd.lt a ReadEnd.default = false
                /\ (a <> ReadEnd.default -> ReadEnd.lt ReadEnd.default a = true)).
Proof.
  unfold ReadEnd.lt, ReadEnd.readId, ReadEnd.read3p.
  split; [| split; [| split; [| split; [| intros a; split; revert a]]]].
  - intros [i e]. cbn. rewrite N.eqb_refl. cbn. now destruct e.
  - intros [i e] [j f]. cbn. rewrite (N.eqb_sym j i).
    destruct (N.eqb_spec i j) as [-> | Hne]; cbn.
    + now destruct e, f.
    + intros H. apply N.ltb_lt in H. apply N.ltb_ge. lia.
  - intros [i e] [j f] [k h]. cbn.
    destruct (N.eqb_spec i j) as [-> | Hij]; cbn.
    + destruct (N.eqb_spec j k) as [-> | Hjk]; cbn; [| auto].
      now destruct e, f, h.
    + intros H1. apply N.ltb_lt in H1.
      destruct (N.eqb_spec j k) as [-> | Hjk]; cbn.
      * intros _. destruct (N.eqb_spec i k) as [-> | _]; [lia |]. cbn. now apply N.ltb_lt.
      * intros H2. apply N.ltb_lt in H2.
        destruct (N.eqb_spec i k) as [-> | _]; [lia |]. cbn. apply N.ltb_lt. lia.
  - intros [i e] [j f]. cbn. rewrite (N.eqb_sym j i).
    destruct (N.eqb_spec i j) as [-> | Hne]; cbn.
    + destruct e, f; cbn; auto.
    + destruct (N.ltb_spec i j); [auto |]. right. right. apply N.ltb_lt. lia.
  - intros [i e]. cbn. destruct (N.eqb_spec i 0) as [-> | Hne]; cbn.
    + now destruct e.
    + apply N.ltb_ge. lia.
  - intros [i e] Hne. destruct i as [| p]; cbn.
    + destruct e; [reflexivity | now destruct Hne].
    + reflexivity.
Qed.

(** X3: two ends made by the constructor compare equal exactly when their
    identifiers agree modulo 2^31 and their end flags agree; so an
    identifier and the same identifier plus 2^31 give equal ends, and
    neither is below the other. *)
Theorem ReadEnd_constructed_equal_iff (id1 id2 : N) (e1 e2 : bool) :
  (ReadEnd.eq (ReadEnd.new id1 e1) (ReadEnd.new id2 e2) = true
   <-> id1 mod 2 ^ 31 = id2 mod 2 ^ 31 /\ e1 = e2)
  /\ ReadEnd.eq (ReadEnd.new (id1 + 2 ^ 31) e1) (ReadEnd.new id1 e1) = true
  /\ ReadEnd.lt (ReadEnd.new (id1 + 2 ^ 31) e1) (ReadEnd.new id1 e1) = false
  /\ ReadEnd.lt (ReadEnd.new id1 e1) (ReadEnd.new (id1 + 2 ^ 31) e1) = false.
Proof.
  assert (Hwrap : ufield 31 (id1 + 2 ^ 31) = ufield 31 id1).
  { unfold ufield. rewrite <- (N.mul_1_l (2 ^ 31)) at 1.
    now rewrite N.Div0.mod_add. }
  split; [| split; [| split]].
  - rewrite ReadEnd_eq_true. unfold ReadEnd.new, ufield. split.
    + now intros [= -> ->].
    + now intros [-> ->].
  - apply ReadEnd_eq_true. unfold ReadEnd.new. now rewrite Hwrap.
  - unfold ReadEnd.lt, ReadEnd.new, ReadEnd.readId, ReadEnd.read3p. cbn [ReadEnd._id ReadEnd._e3p].
    rewrite Hwrap, N.eqb_refl. cbn. now destruct e1.
  - unfold ReadEnd.lt, ReadEnd.new, ReadEnd.readId, ReadEnd.read3p. cbn [ReadEnd._id ReadEnd._e3p].
    rewrite Hwrap, N.eqb_refl. cbn. now destruct e1.
Qed.

(** ** BestEdgeOverlap: what the fields hold *)

Lemma ufield_lt w x : ufield w x < 2 ^ w.
Proof. unfold ufield. apply N.mod_lt. apply N.pow_nonzero. discriminate. Qed.

Lemma sfield_congruent w x :
  ((sfield w x - x) mod 2 ^ (Z.of_N w + 1) = 0)%Z.
Proof.
  unfold sfield.
  assert (0 < 2 ^ (Z.of_N w + 1))%Z by (apply Z.pow_pos_nonneg; lia).
  pose proof (Z.div_mod (x + 2 ^ Z.of_N w) (2 ^ (Z.of_N w + 1))) as Hd.
  replace ((x + 2 ^ Z.of_N w) mod 2 ^ (Z.of_N w + 1) - 2 ^ Z.of_N w - x)%Z
    with (- ((x + 2 ^ Z.of_N w) / 2 ^ (Z.of_N w + 1)) * 2 ^ (Z.of_N w + 1))%Z by lia.
  apply Z.mod_mul. lia.
Qed.

Lemma sfield_widen w v x :
  w <= v -> (- 2 ^ Z.of_N w <= x < 2 ^ Z.of_N w)%Z -> sfield v x = x.
Proof.
  intros Hw Hx. apply sfield_small.
  assert (2 ^ Z.of_N w <= 2 ^ Z.of_N v)%Z by (apply Z.pow_le_mono_r; lia).
  lia.
Qed.

Lemma ufield_widen w v x : w <= v -> x < 2 ^ w -> ufield v x = x.
Proof.
  intros Hw Hx. apply ufield_small.
  assert (2 ^ w <= 2 ^ v) by (apply N.pow_le_mono_r; lia). lia.
Qed.

(** X5: a hang passed to [set] is stored reduced into the signed field: the
    stored hang differs from the given one by a multiple of
    2^(AS_MAX_READLEN_BITS+1), so that the hang 2^AS_MAX_READLEN_BITS is
    stored as its negative; the identifier is stored modulo 2^32 and the
    error code modulo 2^AS_MAX_EVALUE_BITS. *)
Theorem BestEdgeOverlap_set5_wraps (rb eb : N) (id : N) (e3p : bool) (ahang bhang : Z)
    (evalue : N) (this : BestEdgeOverlap.t) :
  ((BestEdgeOverlap._ahang (BestEdgeOverlap.set5 rb eb id e3p ahang bhang evalue this)
    - ahang) mod 2 ^ (Z.of_N rb + 1) = 0)%Z
  /\ ((BestEdgeOverlap._bhang (BestEdgeOverlap.set5 rb eb id e3p ahang bhang evalue this)
       - bhang) mod 2 ^ (Z.of_N rb + 1) = 0)%Z
  /\ BestEdgeOverlap._ahang
       (BestEdgeOverlap.set5 rb eb id e3p (2 ^ Z.of_N rb) bhang evalue this)
     = (- 2 ^ Z.of_N rb)%Z
  /\ BestEdgeOverlap._id (BestEdgeOverlap.set5 rb eb id e3p ahang bhang evalue this)
     = id mod 2 ^ 32
  /\ BestEdgeOverlap._evalue (BestEdgeOverlap.set5 rb eb id e3p ahang bhang evalue this)
     = evalue mod 2 ^ eb.
Proof.
  cbn. split; [apply sfield_congruent |]. split; [apply sfield_congruent |].
  split; [| split; reflexivity].
  unfold sfield.
  assert (0 < 2 ^ Z.of_N rb)%Z by (apply Z.pow_pos_nonneg; lia).
  rewrite Z.pow_add_r by lia. rewrite Z.pow_1_r.
  replace (2 ^ Z.of_N rb + 2 ^ Z.of_N rb)%Z with (2 ^ Z.of_N rb * 2)%Z by lia.
  rewrite Z.mod_same by lia. lia.
Qed.

(** X6: where the build check passes, the accessors [ahang()] and
    [bhang()] return the stored hangs without loss for every record within
    its field ranges, and [evalue()] does so when the error code has at
    most 32 bits; with a wider error code, which the check allows, there is
    a record whose [evalue()] is not the stored code. *)
Theorem BestEdgeOverlap_accessors_lossless (rb eb : N) (e : BestEdgeOverlap.t) :
  BestEdgeOverlap.translate rb eb tt = BestEdgeOverlap.translated _ tt ->
  BestEdgeOverlap_in_fields rb eb e ->
  BestEdgeOverlap.readId e = BestEdgeOverlap._id e
  /\ BestEdgeOverlap.ahang e = BestEdgeOverlap._ahang e
  /\ BestEdgeOverlap.bhang e = BestEdgeOverlap._bhang e
  /\ (eb <= 32 -> BestEdgeOverlap.evalue e = BestEdgeOverlap._evalue e)
  /\ (32 < eb ->
      exists e', BestEdgeOverlap_in_fields rb eb e'
                 /\ BestEdgeOverlap.evalue e' <> BestEdgeOverlap._evalue e').
Proof.
  unfold BestEdgeOverlap.translate.
  destruct (N.ltb_spec 64 (1 + rb + 1 + rb + 1 + eb)) as [| Hw]; [discriminate |].
  intros _ (Hid & Ha & Hb & He).
  assert (Hrb : rb <= 31) by lia.
  split; [reflexivity |].
  split; [now apply (sfield_widen rb) |].
  split; [now apply (sfield_widen rb) |].
  split.
  - intros Heb. now apply (ufield_widen eb).
  - intros Heb. exists (BestEdgeOverlap.mk 0 false 0 0 (2 ^ 32)).
    assert (0 < 2 ^ Z.of_N rb)%Z by (apply Z.pow_pos_nonneg; lia).
    split.
    + unfold BestEdgeOverlap_in_fields. cbn [BestEdgeOverlap._id BestEdgeOverlap._ahang
        BestEdgeOverlap._bhang BestEdgeOverlap._evalue].
      repeat split; try lia. apply N.pow_lt_mono_r; lia.
    + unfold BestEdgeOverlap.evalue, ufield. cbn [BestEdgeOverlap._evalue].
      rewrite N.Div0.mod_same.
      intros Heq. symmetry in Heq. revert Heq. apply N.pow_nonzero. discriminate.
Qed.

Lemma BestEdgeOverlap_accessors_lossless_witness :
  BestEdgeOverlap.ahang (Examples.set5 2 true 4 6 1 BestEdgeOverlap.zeroed) = 4%Z
  /\ BestEdgeOverlap.evalue (Examples.set5 2 true 4 6 1 BestEdgeOverlap.zeroed) = 1.
Proof.
  pose proof (BestEdgeOverlap_accessors_lossless 21 12
                (Examples.set5 2 true 4 6 1 BestEdgeOverlap.zeroed))
    as (_ & Ha & _ & He & _).
  - reflexivity.
  - vm_compute. repeat split; (reflexivity || discriminate).
  - split.
    + rewrite Ha. reflexivity.
    + rewrite He by lia. reflexivity.
Defined.

(** X7: with hang fields of at most 32 bits and an error code of at most
    32 bits, what [set(id, e3p, ahang, bhang, evalue)] is given within the
    field ranges is what the accessors return. *)
Theorem BestEdgeOverlap_set5_then_accessors (rb eb : N) (id : N) (e3p : bool)
    (ahang bhang : Z) (evalue : N) (this : BestEdgeOverlap.t) :
  rb <= 31 -> eb <= 32 ->
  id < 2 ^ 32 ->
  (- 2 ^ Z.of_N rb <= ahang < 2 ^ Z.of_N rb)%Z ->
  (- 2 ^ Z.of_N rb <= bhang < 2 ^ Z.of_N rb)%Z ->
  evalue < 2 ^ eb ->
  BestEdgeOverlap.readId (BestEdgeOverlap.set5 rb eb id e3p ahang bhang evalue this) = id
  /\ BestEdgeOverlap.read3p (BestEdgeOverlap.set5 rb eb id e3p ahang bhang evalue this) = e3p
  /\ BestEdgeOverlap.read5p (BestEdgeOverlap.set5 rb eb id e3p ahang bhang evalue this)
     = negb e3p
  /\ BestEdgeOverlap.ahang (BestEdgeOverlap.set5 rb eb id e3p ahang bhang evalue this)
     = ahang
  /\ BestEdgeOverlap.bhang (BestEdgeOverlap.set5 rb eb id e3p ahang bhang evalue this)
     = bhang
  /\ BestEdgeOverlap.evalue (BestEdgeOverlap.set5 rb eb id e3p ahang bhang evalue this)
     = evalue.
Proof.
  intros Hrb Heb Hid Ha Hb He.
  unfold BestEdgeOverlap.readId, BestEdgeOverlap.read3p, BestEdgeOverlap.read5p,
    BestEdgeOverlap.ahang, BestEdgeOverlap.bhang, BestEdgeOverlap.evalue. cbn.
  rewrite (sfield_small rb ahang Ha), (sfield_small rb bhang Hb),
    (ufield_small eb evalue He), (ufield_small 32 id Hid).
  repeat split.
  - now destruct e3p.
  - now apply (sfield_widen rb).
  - now apply (sfield_widen rb).
  - now apply (ufield_widen eb).
Qed.

Lemma BestEdgeOverlap_set5_then_accessors_witness :
  BestEdgeOverlap.readId (Examples.set5 2 true (-4) 6 1 BestEdgeOverlap.zeroed) = 2
  /\ BestEdgeOverlap.ahang (Examples.set5 2 true (-4) 6 1 BestEdgeOverlap.zeroed) = (-4)%Z.
Proof.
  pose proof (BestEdgeOverlap_set5_then_accessors 21 12 2 true (-4) 6 1
                BestEdgeOverlap.zeroed) as H.
  unfold Examples.set5, Examples.readlen_bits, Examples.evalue_bits.
  split; apply H; cbn; lia.
Defined.

(** X8: copying a record within its field ranges through its accessors,
    [set(e.readId(), e.read3p(), e.ahang(), e.bhang(), e.evalue())],
    reproduces the record, for hang fields and error codes of at most 32
    bits. *)
Theorem BestEdgeOverlap_copy_through_accessors (rb eb : N) (e this : BestEdgeOverlap.t) :
  rb <= 31 -> eb <= 32 ->
  BestEdgeOverlap_in_fields rb eb e ->
  BestEdgeOverlap.set5 rb eb (BestEdgeOverlap.readId e) (BestEdgeOverlap.read3p e)
    (BestEdgeOverlap.ahang e) (BestEdgeOverlap.bhang e) (BestEdgeOverlap.evalue e) this
  = e.
Proof.
  intros Hrb Heb (Hid & Ha & Hb & He). destruct e as [i b a h v]. cbn in *.
  unfold BestEdgeOverlap.set5, BestEdgeOverlap.readId, BestEdgeOverlap.read3p,
    BestEdgeOverlap.ahang, BestEdgeOverlap.bhang, BestEdgeOverlap.evalue. cbn.
  rewrite (sfield_widen rb 31 a), (sfield_widen rb 31 h), (ufield_widen eb 32 v) by assumption.
  rewrite (sfield_small rb a Ha), (sfield_small rb h Hb), (ufield_small eb v He),
    (ufield_small 32 i Hid).
  now destruct b.
Qed.

Lemma BestEdgeOverlap_copy_through_accessors_witness :
  BestEdgeOverlap.set5 21 12 (BestEdgeOverlap.readId Examples.far_edge)
    (BestEdgeOverlap.read3p Examples.far_edge) (BestEdgeOverlap.ahang Examples.far_edge)
    (BestEdgeOverlap.bhang Examples.far_edge) (BestEdgeOverlap.evalue Examples.far_edge)
    BestEdgeOverlap.zeroed
  = Examples.far_edge.
Proof.
  apply BestEdgeOverlap_copy_through_accessors; [lia | lia |].
  vm_compute. repeat split; (reflexivity || discriminate).
Defined.

(** X9: [set] asks the overlap's [BEndIs3prime()] only when both hangs are
    strictly negative or both strictly positive; an overlap with a zero
    hang, or with hangs of opposite signs, has its flipped flag stored as
    the end bit whatever [BEndIs3prime()] would answer. *)
Theorem BestEdgeOverlap_set_end_bit_source (rb eb : N)
    (BEndIs3prime BEndIs3prime' : BAToverlap.t -> bool) (olap : BAToverlap.t)
    (this : BestEdgeOverlap.t) :
  (BestEdgeOverlap.isContainment olap = false
   <-> ((BAToverlap.a_hang olap < 0 /\ BAToverlap.b_hang olap < 0)
        \/ (0 < BAToverlap.a_hang olap /\ 0 < BAToverlap.b_hang olap))%Z)
  /\ ((BAToverlap.a_hang olap = 0 \/ BAToverlap.b_hang olap = 0
       \/ BAToverlap.a_hang olap < 0 < BAToverlap.b_hang olap
       \/ BAToverlap.b_hang olap < 0 < BAToverlap.a_hang olap)%Z ->
      BestEdgeOverlap.set rb eb BEndIs3prime olap this
      = BestEdgeOverlap.set rb eb BEndIs3prime' olap this
      /\ BestEdgeOverlap._e3p (BestEdgeOverlap.set rb eb BEndIs3prime olap this)
         = BAToverlap.flipped olap).
Proof.
  assert (Hc : BestEdgeOverlap.isContainment olap = false
               <-> ((BAToverlap.a_hang olap < 0 /\ BAToverlap.b_hang olap < 0)
                    \/ (0 < BAToverlap.a_hang olap /\ 0 < BAToverlap.b_hang olap))%Z).
  { unfold BestEdgeOverlap.isContainment.
    destruct (Z.leb_spec (BAToverlap.a_hang olap) 0), (Z.geb_spec (BAToverlap.b_hang olap) 0),
      (Z.geb_spec (BAToverlap.a_hang olap) 0), (Z.leb_spec (BAToverlap.b_hang olap) 0);
      cbn; split; intros; try discriminate; try lia; reflexivity. }
  split; [exact Hc |].
  intros H. unfold BestEdgeOverlap.set.
  destruct (BestEdgeOverlap.isContainment olap) eqn:E; cbn.
  - split; reflexivity.
  - pose proof (proj1 Hc eq_refl). lia.
Qed.

Lemma BestEdgeOverlap_set_end_bit_source_witness :
  BestEdgeOverlap._e3p
    (BestEdgeOverlap.set 21 12 Examples.dovetailsInto3prime Examples.contain_3_4
       BestEdgeOverlap.zeroed) = true.
Proof.
  apply (proj2 (BestEdgeOverlap_set_end_bit_source 21 12 Examples.dovetailsInto3prime
                  Examples.dovetailsInto3prime Examples.contain_3_4 BestEdgeOverlap.zeroed)).
  left. reflexivity.
Defined.

(** ** BestOverlapGraph: the storage behind the accessors *)

Section Storage.

Context {double : Type}.
Implicit Types (g : BestOverlapGraph.t double) (e : ReadEnd.t).

Local Ltac fields g :=
  destruct g as [bestA scorA m sd md mad ns n1 n2 i1 i2 sus sing spur bestM scorM rs re eg dg el].

Lemma best_at_fst g readid :
  fst <$> BestOverlapGraph.best_at g readid = BestOverlapGraph.entry g readid.
Proof.
  unfold BestOverlapGraph.best_at, BestOverlapGraph.entry, map_index.
  destruct (BestOverlapGraph._bestA g) as [bestA |].
  - now destruct (bestA !! N.to_nat readid).
  - now destruct (BestOverlapGraph._bestM g !! readid).
Qed.

Lemma getBestEdgeOverlap_fst g readid threePrime :
  fst <$> BestOverlapGraph.getBestEdgeOverlap g readid threePrime
  = BestOverlaps.end_of threePrime <$> BestOverlapGraph.entry g readid.
Proof.
  rewrite <- best_at_fst. unfold BestOverlapGraph.getBestEdgeOverlap.
  now destruct (BestOverlapGraph.best_at g readid) as [[bo g'] |].
Qed.

Lemma isContained_fst g readid :
  fst <$> BestOverlapGraph.isContained g readid
  = (fun bo => negb (BestOverlaps._isC bo =? 0)) <$> BestOverlapGraph.entry g readid.
Proof.
  rewrite <- best_at_fst. unfold BestOverlapGraph.isContained.
  now destruct (BestOverlapGraph.best_at g readid) as [[bo g'] |].
Qed.

Lemma followOverlap_fst g e :
  fst <$> BestOverlapGraph.followOverlap g e
  = if ReadEnd.readId e =? 0
    then Some ReadEnd.default
    else (fun edge => ReadEnd.new (BestEdgeOverlap.readId edge)
                        (negb (BestEdgeOverlap.read3p edge)))
           <$> (fst <$> BestOverlapGraph.getBestEdgeOverlap g (ReadEnd.readId e)
                          (ReadEnd.read3p e)).
Proof.
  unfold BestOverlapGraph.followOverlap. destruct (ReadEnd.readId e =? 0); [reflexivity |].
  now destruct (BestOverlapGraph.getBestEdgeOverlap _ _ _) as [[edge g'] |].
Qed.

(** Once a read has been accessed, accessing it again leaves the graph as
    it is. *)
Lemma best_at_settled g readid bo g' :
  BestOverlapGraph.best_at g readid = Some (bo, g') ->
  BestOverlapGraph.best_at g' readid = Some (bo, g').
Proof.
  unfold BestOverlapGraph.best_at, map_index. fields g. cbn.
  destruct bestA as [bestA |].
  - destruct (bestA !! N.to_nat readid) as [bo' |] eqn:E; [| discriminate].
    intros [= <- <-]. cbn. now rewrite E.
  - destruct (bestM !! readid) as [bo' |] eqn:E; intros [= <- <-]; cbn.
    + now rewrite E.
    + now rewrite lookup_insert_eq.
Qed.

Lemma best_at_other_keys g readid bo g' :
  BestOverlapGraph.best_at g readid = Some (bo, g') ->
  forall k, k <> readid ->
    BestOverlapGraph._bestM g' !! k = BestOverlapGraph._bestM g !! k.
Proof.
  unfold BestOverlapGraph.best_at, map_index. fields g. cbn.
  destruct bestA as [bestA |].
  - destruct (bestA !! N.to_nat readid) as [bo' |]; [| discriminate].
    now intros [= <- <-].
  - destruct (bestM !! readid) as [bo' |] eqn:E; intros [= <- <-] k Hk; cbn.
    + reflexivity.
    + now rewrite lookup_insert_ne.
Qed.

(** A store at a read, read back entry by entry. *)
Lemma upd_best_entry g readid f g1 :
  BestOverlapGraph.upd_best g readid f = Some g1 ->
  forall r, BestOverlapGraph.entry g1 r
            = if decide (r = readid)
              then f <$> BestOverlapGraph.entry g r
              else BestOverlapGraph.entry g r.
Proof.
  unfold BestOverlapGraph.upd_best, BestOverlapGraph.entry, map_index. fields g. cbn.
  destruct bestA as [bestA |].
  - destruct (bestA !! N.to_nat readid) as [bo |] eqn:E; [| discriminate].
    intros [= <-] r. cbn. destruct (decide (r = readid)) as [-> | Hne].
    + rewrite list_lookup_insert_eq by (eapply lookup_lt_Some, E). now rewrite E.
    + apply list_lookup_insert_ne. lia.
  - destruct (bestM !! readid) as [bo |] eqn:E; intros [= <-] r; cbn;
      destruct (decide (r = readid)) as [-> | Hne].
    + now rewrite lookup_insert_eq, E.
    + now rewrite lookup_insert_ne.
    + now rewrite lookup_insert_eq, E.
    + now rewrite !lookup_insert_ne.
Qed.

Lemma upd_best_settled g readid f g1 :
  BestOverlapGraph.upd_best g readid f = Some g1 ->
  exists bo, BestOverlapGraph.best_at g1 readid = Some (bo, g1).
Proof.
  unfold BestOverlapGraph.upd_best, BestOverlapGraph.best_at, map_index. fields g. cbn.
  destruct bestA as [bestA |].
  - destruct (bestA !! N.to_nat readid) as [bo |] eqn:E; [| discriminate].
    intros [= <-]. cbn.
    rewrite list_lookup_insert_eq by (eapply lookup_lt_Some, E). eauto.
  - destruct (bestM !! readid) as [bo |] eqn:E; intros [= <-]; cbn;
      rewrite lookup_insert_eq; eauto.
Qed.

Lemma upd_best_in_storage g readid f :
  BestOverlapGraph.in_storage g readid ->
  exists g1, BestOverlapGraph.upd_best g readid f = Some g1.
Proof.
  unfold BestOverlapGraph.in_storage, BestOverlapGraph.upd_best.
  destruct (BestOverlapGraph._bestA g) as [bestA |].
  - intros H. apply lookup_lt_is_Some_2 in H as [bo ->]. eauto.
  - intros _. destruct (map_index _ _ _). eauto.
Qed.

(** A store into the best edges leaves the scores and the flag sets. *)
Lemma upd_best_rest g readid f g1 :
  BestOverlapGraph.upd_best g readid f = Some g1 ->
  BestOverlapGraph._scorA g1 = BestOverlapGraph._scorA g
  /\ BestOverlapGraph._scorM double g1 = BestOverlapGraph._scorM double g
  /\ BestOverlapGraph._restrictEnabled double g1 = BestOverlapGraph._restrictEnabled double g
  /\ BestOverlapGraph._suspicious g1 = BestOverlapGraph._suspicious g.
Proof.
  unfold BestOverlapGraph.upd_best. fields g. cbn. destruct bestA as [bestA |].
  - destruct (bestA !! N.to_nat readid) as [bo |]; [| discriminate]. now intros [= <-].
  - destruct (map_index _ _ _). now intros [= <-].
Qed.

(** The mapping after a store, whether or not the read was there. *)
Lemma upd_best_sparse g readid f :
  BestOverlapGraph._bestA g = None ->
  BestOverlapGraph.upd_best g readid f
  = Some (BestOverlapGraph.with_bestM
            (<[readid := f (default BestOverlaps.value_init
                              (BestOverlapGraph._bestM g !! readid))]>
               (BestOverlapGraph._bestM g)) g).
Proof.
  intros Ha. unfold BestOverlapGraph.upd_best, map_index. rewrite Ha.
  destruct (BestOverlapGraph._bestM g !! readid) as [bo |]; cbn; [reflexivity |].
  now rewrite insert_insert_eq.
Qed.

Lemma upd_best_twice g readid f f' :
  BestOverlapGraph.upd_best g readid f
    ≫= (fun g1 => BestOverlapGraph.upd_best g1 readid f')
  = BestOverlapGraph.upd_best g readid (f' ∘ f).
Proof.
  fields g. destruct bestA as [bestA |].
  - unfold BestOverlapGraph.upd_best. cbn.
    destruct (bestA !! N.to_nat readid) as [bo |] eqn:E; cbn; [| reflexivity].
    rewrite list_lookup_insert_eq by (eapply lookup_lt_Some, E).
    unfold BestOverlapGraph.with_bestA. cbn. now rewrite list_insert_insert_eq.
  - rewrite !upd_best_sparse by reflexivity. cbn [mbind option_bind].
    rewrite upd_best_sparse by reflexivity.
    unfold BestOverlapGraph.with_bestM. cbn.
    now rewrite lookup_insert_eq, insert_insert_eq.
Qed.

Lemma upd_best_commute g r1 r2 f1 f2 :
  r1 <> r2 ->
  BestOverlapGraph.upd_best g r1 f1 ≫= (fun g1 => BestOverlapGraph.upd_best g1 r2 f2)
  = BestOverlapGraph.upd_best g r2 f2 ≫= (fun g2 => BestOverlapGraph.upd_best g2 r1 f1).
Proof.
  intros Hne. fields g. destruct bestA as [bestA |].
  - assert (Hn : N.to_nat r1 <> N.to_nat r2) by lia.
    unfold BestOverlapGraph.upd_best. cbn.
    destruct (bestA !! N.to_nat r1) as [b1 |] eqn:E1,
             (bestA !! N.to_nat r2) as [b2 |] eqn:E2; cbn.
    + rewrite list_lookup_insert_ne, E2 by done.
      rewrite list_lookup_insert_ne, E1 by done.
      unfold BestOverlapGraph.with_bestA. cbn.
      now rewrite list_insert_insert_ne.
    + now rewrite list_lookup_insert_ne, E2.
    + now rewrite list_lookup_insert_ne, E1.
    + reflexivity.
  - rewrite !upd_best_sparse by reflexivity. cbn [mbind option_bind].
    rewrite !upd_best_sparse by reflexivity.
    unfold BestOverlapGraph.with_bestM. cbn.
    rewrite !lookup_insert_ne by done.
    now rewrite insert_insert_ne.
Qed.

Lemma upd_best_storage g readid f g1 :
  BestOverlapGraph.upd_best g readid f = Some g1 ->
  length <$> BestOverlapGraph._bestA g1 = length <$> BestOverlapGraph._bestA g
  /\ dom (BestOverlapGraph._bestM g) ⊆@{gset N} dom (BestOverlapGraph._bestM g1)
  /\ BestOverlapGraph.in_storage g readid.
Proof.
  unfold BestOverlapGraph.upd_best, BestOverlapGraph.in_storage, map_index. fields g. cbn.
  destruct bestA as [bestA |].
  - destruct (bestA !! N.to_nat readid) as [bo |] eqn:E; [| discriminate].
    intros [= <-]. cbn. rewrite length_insert. split; [reflexivity |].
    split; [reflexivity |]. eapply lookup_lt_Some, E.
  - destruct (bestM !! readid) as [bo |] eqn:E; intros [= <-]; cbn;
      (split; [reflexivity |]); (split; [| exact I]);
      rewrite ?dom_insert_L; set_solver.
Qed.

Lemma bestscore_fst_ext tp g g' id :
  BestOverlapGraph._scorA g' = BestOverlapGraph._scorA g ->
  BestOverlapGraph._scorM double g' = BestOverlapGraph._scorM double g ->
  BestOverlapGraph._restrictEnabled double g' = BestOverlapGraph._restrictEnabled double g ->
  fst <$> BestOverlapGraph.bestscore double tp g' id
  = fst <$> BestOverlapGraph.bestscore double tp g id.
Proof.
  intros H1 H2 H3. unfold BestOverlapGraph.bestscore. rewrite H1, H2, H3.
  destruct (negb _).
  - destruct (BestOverlapGraph._scorA g) as [scorA |]; [| reflexivity].
    now destruct (scorA !! N.to_nat id).
  - now destruct (map_index _ _ _).
Qed.

(** X10: on a read that has storage [setContained] succeeds, and
    [isContained] then answers true and changes nothing. *)
Theorem setContained_then_isContained g readid :
  BestOverlapGraph.in_storage g readid ->
  exists g1,
    BestOverlapGraph.setContained g readid = Some g1
    /\ BestOverlapGraph.isContained g1 readid = Some (true, g1).
Proof.
  intros H. unfold BestOverlapGraph.setContained.
  destruct (upd_best_in_storage g readid (BestOverlaps.set_isC 1) H) as [g1 Hu].
  exists g1. split; [exact Hu |].
  destruct (upd_best_settled _ _ _ _ Hu) as [bo Hb].
  unfold BestOverlapGraph.isContained. rewrite Hb.
  pose proof (best_at_fst g1 readid) as Hf. rewrite Hb in Hf. cbn in Hf.
  rewrite (upd_best_entry _ _ _ _ Hu) in Hf. rewrite decide_True in Hf by done.
  destruct (BestOverlapGraph.entry g readid) as [bo' |]; [| discriminate].
  injection Hf as ->. reflexivity.
Qed.

(** X11: [setContained(readid)] changes no best edge of any read, no
    containment flag of another read, no suspicious flag and no score;
    [followOverlap] answers as before. *)
Theorem setContained_frame g readid g1 :
  BestOverlapGraph.setContained g readid = Some g1 ->
  (forall r threePrime,
      fst <$> BestOverlapGraph.getBestEdgeOverlap g1 r threePrime
      = fst <$> BestOverlapGraph.getBestEdgeOverlap g r threePrime)
  /\ (forall r, r <> readid ->
        fst <$> BestOverlapGraph.isContained g1 r
        = fst <$> BestOverlapGraph.isContained g r)
  /\ (forall r, fst (BestOverlapGraph.isSuspicious g1 r)
                = fst (BestOverlapGraph.isSuspicious g r))
  /\ (forall threePrime id,
        fst <$> BestOverlapGraph.bestscore double threePrime g1 id
        = fst <$> BestOverlapGraph.bestscore double threePrime g id)
  /\ (forall e, fst <$> BestOverlapGraph.followOverlap g1 e
                = fst <$> BestOverlapGraph.followOverlap g e).
Proof.
  unfold BestOverlapGraph.setContained. intros Hu.
  pose proof (upd_best_entry _ _ _ _ Hu) as He.
  destruct (upd_best_rest _ _ _ _ Hu) as (HsA & HsM & Hre & Hsus).
  assert (Hedge : forall r threePrime,
             fst <$> BestOverlapGraph.getBestEdgeOverlap g1 r threePrime
             = fst <$> BestOverlapGraph.getBestEdgeOverlap g r threePrime).
  { intros r tp. rewrite !getBestEdgeOverlap_fst, He.
    destruct (decide (r = readid)) as [-> | _]; [| reflexivity].
    destruct (BestOverlapGraph.entry g readid) as [bo |]; [| reflexivity].
    now destruct tp. }
  split; [exact Hedge |]. split; [| split; [| split]].
  - intros r Hne. rewrite !isContained_fst, He. now rewrite decide_False.
  - intros r. unfold BestOverlapGraph.isSuspicious. cbn. now rewrite Hsus.
  - intros tp id. now apply bestscore_fst_ext.
  - intros e. rewrite !followOverlap_fst. now rewrite Hedge.
Qed.

(** X12: marking two reads contained gives the same graph in either order,
    also when one of them has no storage and the marking fails; marking a
    read a second time changes nothing. *)
Theorem setContained_order_irrelevant g r1 r2 :
  (BestOverlapGraph.setContained g r1 ≫= (fun g1 => BestOverlapGraph.setContained g1 r2))
  = (BestOverlapGraph.setContained g r2 ≫= (fun g2 => BestOverlapGraph.setContained g2 r1))
  /\ (BestOverlapGraph.setContained g r1
        ≫= (fun g1 => BestOverlapGraph.setContained g1 r1))
     = BestOverlapGraph.setContained g r1.
Proof.
  unfold BestOverlapGraph.setContained. split.
  - destruct (decide (r1 = r2)) as [-> | Hne]; [reflexivity |].
    now apply upd_best_commute.
  - apply upd_best_twice.
Qed.

(** X13: on a graph that keeps the keyed mapping, [getBestEdgeOverlap]
    returns for every read and leaves the mapping with the keys it had and
    the read asked for, every entry that was there as it was; a read that
    was not there is entered value-initialised and is not contained. *)
Theorem mapping_query_enters_read g readid threePrime :
  BestOverlapGraph._bestA g = None ->
  exists edge g',
    BestOverlapGraph.getBestEdgeOverlap g readid threePrime = Some (edge, g')
    /\ dom (BestOverlapGraph._bestM g') =@{gset N} {[readid]} ∪ dom (BestOverlapGraph._bestM g)
    /\ (forall k v, BestOverlapGraph._bestM g !! k = Some v ->
                    BestOverlapGraph._bestM g' !! k = Some v)
    /\ (BestOverlapGraph._bestM g !! readid = None ->
        BestOverlapGraph._bestM g' !! readid = Some BestOverlaps.value_init
        /\ BestOverlapGraph.isContained g readid = Some (false, g')).
Proof.
  intros Ha.
  unfold BestOverlapGraph.getBestEdgeOverlap, BestOverlapGraph.isContained,
    BestOverlapGraph.best_at, map_index.
  rewrite Ha. fields g. cbn in *.
  destruct (bestM !! readid) as [bo |] eqn:E; cbn; eexists _, _; (split; [reflexivity |]); cbn.
  - split; [| split; [auto | discriminate]].
    symmetry. apply subseteq_union_1_L. apply singleton_subseteq_l.
    apply elem_of_dom. eauto.
  - split; [apply dom_insert_L |]. split.
    + intros k v Hk. rewrite lookup_insert_ne; [exact Hk | congruence].
    + intros _. now rewrite lookup_insert_eq.
Qed.

(** X14: after one [getBestEdgeOverlap] for a read, asking again for
    either end of that read, asking whether it is contained, or following
    one of its ends returns and leaves the graph as it is. *)
Theorem query_settles_storage g readid threePrime edge g' :
  BestOverlapGraph.getBestEdgeOverlap g readid threePrime = Some (edge, g') ->
  BestOverlapGraph.getBestEdgeOverlap g' readid threePrime = Some (edge, g')
  /\ (exists other,
         BestOverlapGraph.getBestEdgeOverlap g' readid (negb threePrime)
         = Some (other, g'))
  /\ (exists c, BestOverlapGraph.isContained g' readid = Some (c, g'))
  /\ (forall e, ReadEnd.readId e = readid ->
        exists next, BestOverlapGraph.followOverlap g' e = Some (next, g')).
Proof.
  intros Hq. apply getBestEdgeOverlap_Some in Hq as (bo & Hb & ->).
  apply best_at_settled in Hb.
  unfold BestOverlapGraph.followOverlap, BestOverlapGraph.getBestEdgeOverlap,
    BestOverlapGraph.isContained.
  rewrite Hb. split; [reflexivity |]. split; [eauto |]. split; [eauto |].
  intros e He. rewrite He, Hb. destruct (readid =? 0); eauto.
Qed.

(** X15: [followOverlap] returns for every end of a read that has
    storage; it does to the graph no more than a query does, entering at
    most the read followed into the keyed mapping, and the end it returns
    names a read below 2^31.  An end made by the constructor from a
    multiple of 2^31 is followed as the sentinel: the default end comes
    back and the graph is not touched. *)
Theorem followOverlap_frame g e :
  (BestOverlapGraph.in_storage g (ReadEnd.readId e) ->
   exists next g',
     BestOverlapGraph.followOverlap g e = Some (next, g')
     /\ query_frame g g'
     /\ (forall k, k <> ReadEnd.readId e ->
           BestOverlapGraph._bestM g' !! k = BestOverlapGraph._bestM g !! k)
     /\ ReadEnd.readId next < 2 ^ 31)
  /\ (forall k e3p,
        BestOverlapGraph.followOverlap g (ReadEnd.new (k * 2 ^ 31) e3p)
        = Some (ReadEnd.default, g)).
Proof.
  split.
  - intros H. unfold BestOverlapGraph.followOverlap.
    destruct (ReadEnd.readId e =? 0) eqn:E0.
    + exists ReadEnd.default, g. split; [reflexivity |]. split; [| split; [auto | reflexivity]].
      unfold query_frame. split; [auto |]. split; [| auto].
      symmetry. now fields g.
    + destruct (best_at_in_storage g _ H) as (bo & g' & Hb).
      unfold BestOverlapGraph.getBestEdgeOverlap. rewrite Hb.
      eexists _, g'. split; [reflexivity |].
      split; [apply (best_at_frame _ _ _ _ Hb) |].
      split; [apply (best_at_other_keys _ _ _ _ Hb) |].
      apply ufield_lt.
  - intros k e3p. unfold BestOverlapGraph.followOverlap, ReadEnd.new, ReadEnd.readId, ufield.
    cbn [ReadEnd._id]. now rewrite N.Div0.mod_mul.
Qed.

(** X16: what a member writes through the pointer that
    [getBestEdgeOverlap(readid, threePrime)] returns is what the next
    query for that end returns, with the graph left as it is; the other
    end of the read, every other read, the containment and suspicious
    flags and the scores are as before. *)
Theorem store_through_pointer_then_query g readid threePrime member g1 :
  through_pointer g readid threePrime member = Some g1 ->
  (exists was,
      fst <$> BestOverlapGraph.getBestEdgeOverlap g readid threePrime = Some was
      /\ BestOverlapGraph.getBestEdgeOverlap g1 readid threePrime = Some (member was, g1))
  /\ fst <$> BestOverlapGraph.getBestEdgeOverlap g1 readid (negb threePrime)
     = fst <$> BestOverlapGraph.getBestEdgeOverlap g readid (negb threePrime)
  /\ (forall r tp, r <> readid ->
        fst <$> BestOverlapGraph.getBestEdgeOverlap g1 r tp
        = fst <$> BestOverlapGraph.getBestEdgeOverlap g r tp)
  /\ (forall r, fst <$> BestOverlapGraph.isContained g1 r
                = fst <$> BestOverlapGraph.isContained g r)
  /\ (forall r, fst (BestOverlapGraph.isSuspicious g1 r)
                = fst (BestOverlapGraph.isSuspicious g r))
  /\ (forall tp id,
        fst <$> BestOverlapGraph.bestscore double tp g1 id
        = fst <$> BestOverlapGraph.bestscore double tp g id).
Proof.
  unfold through_pointer. intros Hu.
  pose proof (upd_best_entry _ _ _ _ Hu) as He.
  destruct (upd_best_rest _ _ _ _ Hu) as (HsA & HsM & Hre & Hsus).
  destruct (upd_best_settled _ _ _ _ Hu) as [bo Hb].
  pose proof (best_at_fst g1 readid) as Hf. rewrite Hb in Hf. cbn in Hf.
  rewrite He, decide_True in Hf by done.
  split; [| split; [| split; [| split; [| split]]]].
  - rewrite getBestEdgeOverlap_fst.
    destruct (BestOverlapGraph.entry g readid) as [bo' |]; [| discriminate].
    injection Hf as ->. exists (BestOverlaps.end_of threePrime bo'). split; [reflexivity |].
    unfold BestOverlapGraph.getBestEdgeOverlap. rewrite Hb. now destruct threePrime.
  - rewrite !getBestEdgeOverlap_fst, He, decide_True by done.
    destruct (BestOverlapGraph.entry g readid) as [bo' |]; [| reflexivity].
    now destruct threePrime.
  - intros r tp Hne. rewrite !getBestEdgeOverlap_fst, He. now rewrite decide_False.
  - intros r. rewrite !isContained_fst, He.
    destruct (decide (r = readid)) as [-> | _]; [| reflexivity].
    destruct (BestOverlapGraph.entry g readid) as [bo' |]; [| reflexivity].
    now destruct threePrime.
  - intros r. unfold BestOverlapGraph.isSuspicious. cbn. now rewrite Hsus.
  - intros tp id. now apply bestscore_fst_ext.
Qed.

(** X17: a score stored through the reference that [best5score(id)] or
    [best3score(id)] returns is the score the same accessor returns next,
    reduced to 64 bits, with the graph left as it is; the score of the
    other end, the scores of every other read and every best edge and
    containment flag are as before. *)
Theorem bestscore_store_then_load threePrime g id v g1 :
  BestOverlapGraph.set_bestscore double threePrime g id v = Some g1 ->
  BestOverlapGraph.bestscore double threePrime g1 id = Some (v mod 2 ^ 64, g1)
  /\ fst <$> BestOverlapGraph.bestscore double (negb threePrime) g1 id
     = fst <$> BestOverlapGraph.bestscore double (negb threePrime) g id
  /\ (forall id' tp, id' <> id ->
        fst <$> BestOverlapGraph.bestscore double tp g1 id'
        = fst <$> BestOverlapGraph.bestscore double tp g id')
  /\ (forall r, BestOverlapGraph.entry g1 r = BestOverlapGraph.entry g r).
Proof.
  unfold BestOverlapGraph.set_bestscore, BestOverlapGraph.bestscore, map_index.
  fields g. cbn. destruct re; cbn.
  - destruct (scorM !! id) as [sc |] eqn:E; intros [= <-]; cbn;
      rewrite lookup_insert_eq; cbn; (split; [| split; [| split]]).
    + now destruct threePrime.
    + now destruct threePrime.
    + intros id' tp Hne. rewrite lookup_insert_ne by done.
      now destruct (scorM !! id').
    + reflexivity.
    + now destruct threePrime.
    + now destruct threePrime.
    + intros id' tp Hne. rewrite !lookup_insert_ne by done.
      now destruct (scorM !! id').
    + reflexivity.
  - destruct scorA as [scorA |]; [| discriminate].
    destruct (scorA !! N.to_nat id) as [sc |] eqn:E; [| discriminate].
    intros [= <-]. cbn.
    rewrite list_lookup_insert_eq by (eapply lookup_lt_Some, E). cbn.
    split; [| split; [| split]].
    + now destruct threePrime.
    + now destruct threePrime.
    + intros id' tp Hne. rewrite list_lookup_insert_ne by lia.
      now destruct (scorA !! N.to_nat id').
    + reflexivity.
Qed.

(** X18: reading a score changes no best edge and no containment flag, and
    reading it again gives the same score and changes nothing; with the
    restriction off the read changes nothing at all, with the restriction
    on a read that the score mapping lacks reads 0 and is entered with zero
    scores. *)
Theorem bestscore_load_frame threePrime g id s g' :
  BestOverlapGraph.bestscore double threePrime g id = Some (s, g') ->
  (BestOverlapGraph._restrictEnabled double g = false -> g' = g)
  /\ (forall r, BestOverlapGraph.entry g' r = BestOverlapGraph.entry g r)
  /\ BestOverlapGraph.bestscore double threePrime g' id = Some (s, g')
  /\ (BestOverlapGraph._restrictEnabled double g = true ->
      BestOverlapGraph._scorM double g !! id = None ->
      s = 0
      /\ BestOverlapGraph._scorM double g' = <[id := BestScores.new]> (BestOverlapGraph._scorM double g)).
Proof.
  unfold BestOverlapGraph.bestscore, map_index. fields g. cbn. destruct re; cbn.
  - destruct (scorM !! id) as [sc |] eqn:E; intros [= <- <-]; cbn.
    + rewrite E. repeat split; discriminate.
    + rewrite lookup_insert_eq. repeat split; try discriminate. now destruct threePrime.
  - destruct scorA as [scorA |]; [| discriminate].
    destruct (scorA !! N.to_nat id) as [sc |] eqn:E; [| discriminate].
    intros [= <- <-]. cbn. rewrite E. repeat split; discriminate.
Qed.

(** X19: a store into the best edges, by [setContained] or by a member
    called through the pointer of [getBestEdgeOverlap], succeeds only on a
    read that has storage; it never changes which storage the graph keeps
    nor the length of the array, and never removes a read from the keyed
    mapping, so that the reads that have storage afterwards are those that
    had it before. *)
Theorem stores_keep_storage g readid threePrime member g1 :
  BestOverlapGraph.setContained g readid = Some g1
  \/ through_pointer g readid threePrime member = Some g1 ->
  BestOverlapGraph.in_storage g readid
  /\ length <$> BestOverlapGraph._bestA g1 = length <$> BestOverlapGraph._bestA g
  /\ dom (BestOverlapGraph._bestM g) ⊆@{gset N} dom (BestOverlapGraph._bestM g1)
  /\ (forall r, BestOverlapGraph.in_storage g1 r <-> BestOverlapGraph.in_storage g r).
Proof.
  unfold BestOverlapGraph.setContained, through_pointer.
  intros [Hu | Hu]; destruct (upd_best_storage _ _ _ _ Hu) as (Hl & Hd & Hs);
    (split; [exact Hs |]); (split; [exact Hl |]); (split; [exact Hd |]);
    intros r; unfold BestOverlapGraph.in_storage;
    destruct (BestOverlapGraph._bestA g1) as [l1 |], (BestOverlapGraph._bestA g) as [l |];
    cbn in Hl; try discriminate; try tauto; injection Hl as ->; tauto.
Qed.

End Storage.

Lemma setContained_then_isContained_witness :
  exists g1,
    BestOverlapGraph.setContained Examples.far_graph 1 = Some g1
    /\ BestOverlapGraph.isContained g1 1 = Some (true, g1).
Proof.
  apply (setContained_then_isContained Examples.far_graph 1). cbv. lia.
Defined.

Lemma setContained_frame_witness :
  exists g1,
    BestOverlapGraph.setContained Examples.far_graph 2 = Some g1
    /\ fst <$> BestOverlapGraph.getBestEdgeOverlap g1 1 false = Some Examples.far_edge.
Proof.
  eexists. split; [reflexivity |].
  rewrite (proj1 (setContained_frame Examples.far_graph 2 _ eq_refl) 1 false).
  reflexivity.
Defined.

Lemma mapping_query_enters_read_witness :
  exists edge g',
    BestOverlapGraph.getBestEdgeOverlap (Examples.sparse ∅) 7 true = Some (edge, g')
    /\ BestOverlapGraph._bestM g' !! 7 = Some BestOverlaps.value_init.
Proof.
  destruct (mapping_query_enters_read (Examples.sparse ∅) 7 true eq_refl)
    as (edge & g' & Hq & _ & _ & Hnew).
  exists edge, g'. split; [exact Hq |]. apply Hnew. reflexivity.
Defined.

Lemma query_settles_storage_witness :
  exists edge g',
    BestOverlapGraph.getBestEdgeOverlap (Examples.sparse ∅) 7 true = Some (edge, g')
    /\ BestOverlapGraph.getBestEdgeOverlap g' 7 true = Some (edge, g').
Proof.
  eexists _, _. split; [reflexivity |].
  apply (query_settles_storage (Examples.sparse ∅) 7 true). reflexivity.
Defined.

Lemma followOverlap_frame_witness :
  exists next g',
    BestOverlapGraph.followOverlap Examples.far_graph (ReadEnd.new 1 true) = Some (next, g')
    /\ ReadEnd.readId next < 2 ^ 31.
Proof.
  destruct (proj1 (followOverlap_frame Examples.far_graph (ReadEnd.new 1 true)))
    as (next & g' & Hf & _ & _ & Hlt).
  - cbv. lia.
  - eauto.
Defined.

Lemma store_through_pointer_then_query_witness :
  exists g1,
    through_pointer Examples.far_graph 2 false
      (Examples.set5 1 true 7 9 3) = Some g1
    /\ exists was,
         BestOverlapGraph.getBestEdgeOverlap g1 2 false
         = Some (Examples.set5 1 true 7 9 3 was, g1).
Proof.
  eexists. split; [reflexivity |].
  destruct (proj1 (store_through_pointer_then_query Examples.far_graph 2 false
                     (Examples.set5 1 true 7 9 3) _ eq_refl)) as (was & _ & Hq).
  eauto.
Defined.

Lemma bestscore_store_then_load_witness :
  exists g1,
    BestOverlapGraph.set_bestscore N true Examples.far_graph 1 (2 ^ 64 + 40) = Some g1
    /\ BestOverlapGraph.bestscore N true g1 1 = Some (40, g1).
Proof.
  eexists. split; [reflexivity |].
  apply (proj1 (bestscore_store_then_load true Examples.far_graph 1 (2 ^ 64 + 40) _ eq_refl)).
Defined.

Lemma bestscore_load_frame_witness :
  exists s g',
    BestOverlapGraph.bestscore N false (Examples.sparse ∅) 4 = Some (s, g')
    /\ s = 0.
Proof.
  eexists _, _. split; [reflexivity |].
  apply (proj2 (proj2 (proj2 (bestscore_load_frame false (Examples.sparse ∅) 4 _ _ eq_refl))));
    reflexivity.
Defined.

Lemma stores_keep_storage_witness :
  exists g1,
    BestOverlapGraph.setContained Examples.far_graph 2 = Some g1
    /\ (BestOverlapGraph.in_storage g1 2 <-> BestOverlapGraph.in_storage Examples.far_graph 2).
Proof.
  eexists. split; [reflexivity |].
  apply (stores_keep_storage Examples.far_graph 2 false BestEdgeOverlap.clear _
           (or_introl eq_refl)).
Defined.
